(** * Rotational inertia of a rigid body: a shallow embedding of
    [drake/multibody/tree/rotational_inertia.h]

    The C++ class [RotationalInertia<T>] is a template over a scalar type [T]
    (double, AutoDiffXd, symbolic::Expression).  The embedding follows the
    template: every definition is parameterised by a type [T] carrying the
    operations the header uses ([Scalar T]).  Two instantiations are given:

    - [double]: IEEE-754 binary64, through Rocq's primitive floats, so that the
      code can be run on the very numbers a C++ build computes with;
    - [exact]: canonical rationals, the "plain real number" reading of the
      algebra, where the laws of an ordered ring hold ([ExactScalar]).

    The embedding covers the numeric scalar types, those for which
    [scalar_predicate<T>::is_bool] is true and [boolean<T>] is [bool]. *)

From Stdlib Require Import Bool ZArith QArith Qcanon String List Lia.
From Stdlib Require Import Ascii DecimalString Uint63.
From Stdlib Require DecimalPos DecimalZ.
From Stdlib Require Import Ring Field.
From Stdlib Require Import Floats.

Set Implicit Arguments.

Declare Scope scalar_scope.
Delimit Scope scalar_scope with S.

(** ** The scalar interface used by the header *)

Class Scalar (T : Type) : Type := {
  s_zero : T;                      (* the literal 0.0 *)
  s_one : T;                       (* the literal 1 *)
  s_half : T;                      (* the literal 0.5 *)
  s_add : T -> T -> T;
  s_sub : T -> T -> T;
  s_mul : T -> T -> T;
  s_div : T -> T -> T;
  s_neg : T -> T;
  s_abs : T -> T;                  (* std::abs *)
  s_ltb : T -> T -> bool;          (* operator< *)
  s_leb : T -> T -> bool;          (* operator<= *)
  s_eqb : T -> T -> bool;          (* operator== *)
  s_isnan : T -> bool;             (* std::isnan *)
  s_isfinite : T -> bool;          (* std::isfinite *)
  s_quiet_NaN : T                  (* numeric_limits<Literal>::quiet_NaN() *)
}.

Notation "x + y" := (s_add x y) : scalar_scope.
Notation "x - y" := (s_sub x y) : scalar_scope.
Notation "x * y" := (s_mul x y) : scalar_scope.
Notation "x / y" := (s_div x y) : scalar_scope.
Notation "- x" := (s_neg x) : scalar_scope.
Notation "x <? y" := (s_ltb x y) : scalar_scope.
Notation "x <=? y" := (s_leb x y) : scalar_scope.
Notation "x >=? y" := (s_leb y x) (at level 70) : scalar_scope.
Notation "x =? y" := (s_eqb x y) : scalar_scope.

(** T = double. *)
#[export] Instance double : Scalar float := {|
  s_zero := 0%float;
  s_one := 1%float;
  s_half := 0.5%float;
  s_add := PrimFloat.add;
  s_sub := PrimFloat.sub;
  s_mul := PrimFloat.mul;
  s_div := PrimFloat.div;
  s_neg := PrimFloat.opp;
  s_abs := PrimFloat.abs;
  s_ltb := PrimFloat.ltb;
  s_leb := PrimFloat.leb;
  s_eqb := PrimFloat.eqb;
  s_isnan := PrimFloat.is_nan;
  s_isfinite := PrimFloat.is_finite;
  s_quiet_NaN := PrimFloat.nan
|}.

(** Exact rationals.  The type has no NaN: as [std::numeric_limits] does for a
    type whose [has_quiet_NaN] is false, [quiet_NaN()] is the zero value. *)
Definition Qc_leb (a b : Qc) : bool := Qle_bool (this a) (this b).
Definition Qc_ltb (a b : Qc) : bool := negb (Qc_leb b a).
Definition Qc_eqb (a b : Qc) : bool := Qeq_bool (this a) (this b).
Definition Qc_abs (a : Qc) : Qc := if Qc_ltb a 0%Qc then Qcopp a else a.

#[export] Instance exact : Scalar Qc := {|
  s_zero := 0%Qc;
  s_one := 1%Qc;
  s_half := Q2Qc (1 # 2);
  s_add := Qcplus;
  s_sub := Qcminus;
  s_mul := Qcmult;
  s_div := Qcdiv;
  s_neg := Qcopp;
  s_abs := Qc_abs;
  s_ltb := Qc_ltb;
  s_leb := Qc_leb;
  s_eqb := Qc_eqb;
  s_isnan := fun _ => false;
  s_isfinite := fun _ => true;
  s_quiet_NaN := 0%Qc
|}.

(** [std::min(a, b)] and the [max] of Eigen's [maxCoeff] reduction, both as
    the C++ library defines them from [operator<]. *)
Definition std_min {T} `{Scalar T} (a b : T) : T := if (b <? a)%S then b else a.
Definition std_max {T} `{Scalar T} (a b : T) : T := if (a <? b)%S then b else a.

(** ** Eigen's fixed-size vectors and matrices *)

Record Vector3 (T : Type) : Type := mkVector3 { v0 : T; v1 : T; v2 : T }.

Record Matrix3 (T : Type) : Type := mkMatrix3 {
  m00 : T; m01 : T; m02 : T;
  m10 : T; m11 : T; m12 : T;
  m20 : T; m21 : T; m22 : T
}.

Section Eigen.
Context {T : Type} `{Scalar T}.
Local Open Scope scalar_scope.

(** [Matrix3<T>::Constant(c)] *)
Definition Constant (c : T) : Matrix3 T := mkMatrix3 c c c c c c c c c.

(** [M(i, j)], for indices in range. *)
Definition coeff (M : Matrix3 T) (i j : nat) : T :=
  match i, j with
  | 0, 0 => m00 M | 0, 1 => m01 M | 0, _ => m02 M
  | 1, 0 => m10 M | 1, 1 => m11 M | 1, _ => m12 M
  | _, 0 => m20 M | _, 1 => m21 M | _, _ => m22 M
  end%nat.

Definition diagonal (M : Matrix3 T) : Vector3 T :=
  mkVector3 (m00 M) (m11 M) (m22 M).

(** [M.trace()]: Eigen sums the diagonal from the first coefficient on. *)
Definition trace (M : Matrix3 T) : T := m00 M + m11 M + m22 M.

(** [M.triangularView<Eigen::Lower>() op= N]: only the six coefficients of
    the lower triangle of [M] are written; the three above the diagonal keep
    their value. *)
Definition lower_update (f : T -> T -> T) (M N : Matrix3 T) : Matrix3 T :=
  mkMatrix3 (f (m00 M) (m00 N)) (m01 M)               (m02 M)
            (f (m10 M) (m10 N)) (f (m11 M) (m11 N))   (m12 M)
            (f (m20 M) (m20 N)) (f (m21 M) (m21 N))   (f (m22 M) (m22 N)).

(** [M.triangularView<Eigen::Lower>() *= s] *)
Definition lower_scale (M : Matrix3 T) (s : T) : Matrix3 T :=
  mkMatrix3 (m00 M * s) (m01 M)     (m02 M)
            (m10 M * s) (m11 M * s) (m12 M)
            (m20 M * s) (m21 M * s) (m22 M * s).

(** [M.triangularView<Eigen::Lower>() = N] *)
Definition lower_assign (M N : Matrix3 T) : Matrix3 T :=
  lower_update (fun _ n => n) M N.

(** [Matrix3<T>::Zero()] *)
Definition Zero : Matrix3 T := Constant s_zero.

Definition vsub (a b : Vector3 T) : Vector3 T :=
  mkVector3 (v0 a - v0 b) (v1 a - v1 b) (v2 a - v2 b).

(** [mass * p]: scalar times vector. *)
Definition vscale (s : T) (p : Vector3 T) : Vector3 T :=
  mkVector3 (s * v0 p) (s * v1 p) (s * v2 p).

(** [-p] *)
Definition vneg (p : Vector3 T) : Vector3 T :=
  mkVector3 (- v0 p) (- v1 p) (- v2 p).

(** [v.lpNorm<Eigen::Infinity>()], that is [v.cwiseAbs().maxCoeff()]: a
    reduction with [max] from the first coefficient on.  (Eigen leaves the
    result unspecified when a coefficient is NaN; what is proved of it is
    proved for vectors without NaN, where the order of the reduction does
    not matter.) *)
Definition lpNorm_Infinity (v : Vector3 T) : T :=
  std_max (std_max (s_abs (v0 v)) (s_abs (v1 v))) (s_abs (v2 v)).
End Eigen.

(** ** Exceptions and in-place methods

    A member function that mutates [*this] and may throw is a function from
    the receiver's state to the receiver's state after the call together with
    the call's outcome.  The state is returned in both cases: what the
    receiver holds after a throw is part of the behaviour. *)

(** The failures of the class, named as the specification's taxonomy does.  In
    the header both are [std::logic_error]s; [what] is the message. *)
Inductive exception : Type :=
| InvalidConstruction (func_name report : string)
| InvalidScale (what : string).

Inductive outcome (A : Type) : Type :=
| Returned (a : A)
| Thrown (e : exception).
Arguments Thrown {A} e.

Definition raises_invalid_construction {A} (o : outcome A) : bool :=
  match o with Thrown (InvalidConstruction _ _) => true | _ => false end.

Definition raises_invalid_scale {A} (o : outcome A) : bool :=
  match o with Thrown (InvalidScale _) => true | _ => false end.

Definition obind {A B} (o : outcome A) (k : A -> outcome B) : outcome B :=
  match o with
  | Returned a => k a
  | Thrown e => Thrown e
  end.

Definition Method (R A : Type) : Type := R -> R * outcome A.

Definition mret {R A} (a : A) : Method R A := fun this => (this, Returned a).

Definition mbind {R A B} (m : Method R A) (k : A -> Method R B) : Method R B :=
  fun this =>
    match m this with
    | (this', Returned a) => k a this'
    | (this', Thrown e) => (this', Thrown e)
    end.

(** An expression that does not touch the receiver. *)
Definition eval {R A} (o : outcome A) : Method R A := fun this => (this, o).

(** An assignment to the receiver's storage. *)
Definition modify {R} (f : R -> R) : Method R unit :=
  fun this => (f this, Returned tt).

(** [T(obj) op= ...]: the method runs on a temporary copy of [obj], which is
    the value of the expression. *)
Definition on_copy {R} (obj : R) (m : Method R unit) : outcome R :=
  match m obj with
  | (obj', Returned _) => Returned obj'
  | (_, Thrown e) => Thrown e
  end.

(** A [const] member function: the receiver is only read. *)
Definition const_method {R A} (f : R -> outcome A) : Method R A :=
  fun this => (this, f this).

Declare Scope method_scope.
Delimit Scope method_scope with M.
Notation "x <- m ;; k" := (mbind m (fun x => k))
  (at level 61, m at next level, right associativity) : method_scope.
Notation "m ;; k" := (mbind m (fun _ => k))
  (at level 61, right associativity) : method_scope.
Notation "x <-- o ;; k" := (obind o (fun x => k))
  (at level 61, o at next level, right associativity) : method_scope.

(** ** The class *)

(** The only data member: the 3x3 matrix [I_SP_E_], of which the class uses
    the lower triangle. *)
Record RotationalInertia (T : Type) : Type := { I_SP_E_ : Matrix3 T }.

Section Class.
Context {T : Type} `{Scalar T}.
Local Open Scope scalar_scope.
Local Open Scope method_scope.

Local Abbreviation RI := (RotationalInertia T).

(** Modelled from the spec: [DRAKE_ASSERT_VOID] ([drake_assert.h] is not in
    src) runs its argument in builds where assertions are armed (Debug) and
    is a no-op elsewhere ("validity checks ... elided in
    performance-sensitive builds"); the build is [assert_armed]. *)
Variable assert_armed : bool.

(** [CreateInvalidityReport()] is declared in the header and defined in
    [rotational_inertia.cc], which is not in src: the operations take it as
    a parameter.  It is a [const] method: it reads the receiver, and returns
    an error string if the receiver is verifiably invalid. *)
Variable CreateInvalidityReport : RI -> option string.

Definition DRAKE_ASSERT_VOID (check : Method RI unit) : Method RI unit :=
  if assert_armed then check else mret tt.

(** *** Storage and accessors *)

(** [I_SP_E_{Matrix3<T>::Constant(quiet_NaN())}], the default member
    initializer, and the default constructor [RotationalInertia() {}]. *)
Definition RotationalInertia_default : RI :=
  {| I_SP_E_ := Constant s_quiet_NaN |}.

Definition is_lower_triangular_order (i j : nat) : bool := (j <=? i)%nat.

Definition check_and_swap (i j : nat) : nat * nat :=
  if negb (is_lower_triangular_order i j) then (j, i) else (i, j).

Definition get_matrix (this : RI) : Matrix3 T := I_SP_E_ this.

Definition get_moments (this : RI) : Vector3 T := diagonal (I_SP_E_ this).

Definition get_products (this : RI) : Vector3 T :=
  mkVector3 (coeff (I_SP_E_ this) 1 0) (coeff (I_SP_E_ this) 2 0)
            (coeff (I_SP_E_ this) 2 1).

Definition Trace (this : RI) : T := trace (I_SP_E_ this).

Definition CalcMaximumPossibleMomentOfInertia (this : RI) : T :=
  s_half * s_abs (Trace this).

(** [operator()(i, j)] *)
Definition operator_call (this : RI) (i j : nat) : T :=
  let '(i, j) := check_and_swap i j in coeff (I_SP_E_ this) i j.

(** [CopyToFullMatrix3()]: the self-adjoint view of the lower triangle. *)
Definition CopyToFullMatrix3 (this : RI) : Matrix3 T :=
  let M := I_SP_E_ this in
  mkMatrix3 (m00 M) (m10 M) (m20 M)
            (m10 M) (m11 M) (m21 M)
            (m20 M) (m21 M) (m22 M).

Definition set_moments_and_products_no_validity_check
    (Ixx Iyy Izz Ixy Ixz Iyz : T) : Method RI unit :=
  modify (fun this =>
    let M := I_SP_E_ this in
    {| I_SP_E_ := mkMatrix3 Ixx (m01 M) (m02 M)
                            Ixy Iyy     (m12 M)
                            Ixz Iyz     Izz |}).

Definition SetToNaN : Method RI unit :=
  modify (fun _ => {| I_SP_E_ := Constant s_quiet_NaN |}).

Definition SetZero : Method RI unit :=
  modify (fun this => {| I_SP_E_ := lower_assign (I_SP_E_ this) Zero |}).

(** *** Diagnostic predicates *)

Definition IsFinite (this : RI) : bool :=
  let M := I_SP_E_ this in
  s_isfinite (coeff M 0 0) && s_isfinite (coeff M 1 0) &&
  s_isfinite (coeff M 1 1) && s_isfinite (coeff M 2 0) &&
  s_isfinite (coeff M 2 1) && s_isfinite (coeff M 2 2).

Definition IsNaN (this : RI) : bool :=
  let M := I_SP_E_ this in
  s_isnan (coeff M 0 0) || s_isnan (coeff M 1 0) ||
  s_isnan (coeff M 1 1) || s_isnan (coeff M 2 0) ||
  s_isnan (coeff M 2 1) || s_isnan (coeff M 2 2).

Definition IsZero (this : RI) : bool :=
  let M := I_SP_E_ this in
  (coeff M 0 0 =? s_zero) && (coeff M 1 0 =? s_zero) &&
  (coeff M 1 1 =? s_zero) && (coeff M 2 0 =? s_zero) &&
  (coeff M 2 1 =? s_zero) && (coeff M 2 2 =? s_zero).

(** *** Validity *)

Definition CouldBePhysicallyValid (this : RI) : bool :=
  negb (match CreateInvalidityReport this with Some _ => true | None => false end).

Definition AreMomentsOfInertiaNearPositive (Ixx Iyy Izz epsilon : T) : bool :=
  (Ixx + epsilon >=? s_zero) && (Iyy + epsilon >=? s_zero) &&
  (Izz + epsilon >=? s_zero).

(** [ThrowIfNotPhysicallyValidImpl] is defined in the absent .cc; its
    declaration says: "Throw an exception if CreateInvalidityReport()
    returns an error string". *)
Definition ThrowIfNotPhysicallyValidImpl (func_name : string) : Method RI unit :=
  const_method (fun this =>
    match CreateInvalidityReport this with
    | Some report => Thrown (InvalidConstruction func_name report)
    | None => Returned tt
    end).

(** [if constexpr (scalar_predicate<T>::is_bool)]: taken for the numeric
    scalar types of this embedding. *)
Definition ThrowIfNotPhysicallyValid (func_name : string) : Method RI unit :=
  ThrowIfNotPhysicallyValidImpl func_name.

Definition ThrowIfMultiplyByNegativeScalar (nonnegative_scalar : T) : outcome unit :=
  if nonnegative_scalar <? s_zero then
    Thrown (InvalidScale
      "Error: Rotational inertia is multiplied by a negative number.")
  else Returned tt.

Definition ThrowIfDivideByZeroOrNegativeScalar (positive_scalar : T) : outcome unit :=
  if positive_scalar =? s_zero then
    Thrown (InvalidScale "Error: Rotational inertia is divided by 0.")
  else if positive_scalar <? s_zero then
    Thrown (InvalidScale
      "Error: Rotational inertia is divided by a negative number")
  else Returned tt.

(** *** Constructors: the body runs on the default-initialized object; if
    it throws there is no object. *)

Definition construct (body : Method RI unit) : outcome RI :=
  on_copy RotationalInertia_default body.

Definition RotationalInertia_6 (Ixx Iyy Izz Ixy Ixz Iyz : T) : outcome RI :=
  construct (
    set_moments_and_products_no_validity_check Ixx Iyy Izz Ixy Ixz Iyz ;;
    DRAKE_ASSERT_VOID (ThrowIfNotPhysicallyValid "RotationalInertia")).

Definition RotationalInertia_3 (Ixx Iyy Izz : T) : outcome RI :=
  RotationalInertia_6 Ixx Iyy Izz s_zero s_zero s_zero.

(** The private helper constructor [RotationalInertia(mass_p_PQ_E, p_PQ_E)]. *)
Definition RotationalInertia_mass_p (mass_p_PQ_E p_PQ_E : Vector3 T) : outcome RI :=
  let mx := v0 mass_p_PQ_E in
  let my := v1 mass_p_PQ_E in
  let mz := v2 mass_p_PQ_E in
  let x := v0 p_PQ_E in
  let y := v1 p_PQ_E in
  let z := v2 p_PQ_E in
  let mxx := mx * x in
  let myy := my * y in
  let mzz := mz * z in
  construct (
    set_moments_and_products_no_validity_check
      (myy + mzz) (mxx + mzz) (mxx + myy)
      (- mx * y) (- mx * z) (- my * z) ;;
    DRAKE_ASSERT_VOID (ThrowIfNotPhysicallyValid "RotationalInertia")).

(** [RotationalInertia(mass, p_PQ_E)], the point-mass constructor. *)
Definition RotationalInertia_point_mass (mass : T) (p_PQ_E : Vector3 T) : outcome RI :=
  RotationalInertia_mass_p (vscale mass p_PQ_E) p_PQ_E.

(** The private constructor from a matrix. *)
Definition RotationalInertia_matrix (I : Matrix3 T) (skip_validity_check : bool)
  : outcome RI :=
  construct (
    modify (fun _ => {| I_SP_E_ := I |}) ;;
    if negb skip_validity_check
    then DRAKE_ASSERT_VOID (ThrowIfNotPhysicallyValid "RotationalInertia")
    else mret tt).

Definition TriaxiallySymmetric (I_triaxial : T) : outcome RI :=
  RotationalInertia_6 I_triaxial I_triaxial I_triaxial s_zero s_zero s_zero.

(** The check of this factory is not an assertion: it runs in every build. *)
Definition MakeFromMomentsAndProductsOfInertia
    (Ixx Iyy Izz Ixy Ixz Iyz : T) (skip_validity_check : bool) : outcome RI :=
  on_copy RotationalInertia_default (
    set_moments_and_products_no_validity_check Ixx Iyy Izz Ixy Ixz Iyz ;;
    if negb skip_validity_check
    then ThrowIfNotPhysicallyValid "MakeFromMomentsAndProductsOfInertia"
    else mret tt).

(** *** Comparison *)

Definition IsApproxMomentsAndProducts (this other : RI) (epsilon : T) : bool :=
  let moment_difference := vsub (get_moments this) (get_moments other) in
  let product_difference := vsub (get_products this) (get_products other) in
  let moment_max := lpNorm_Infinity moment_difference in
  let product_max := lpNorm_Infinity product_difference in
  (moment_max <=? epsilon) && (product_max <=? epsilon).

(** [precision] is a [double] in the header; [precision * I_test] converts it
    to [T], so it is taken here as a [T]. *)
Definition IsNearlyEqualTo (this other : RI) (precision : T) : bool :=
  let I_maxA := CalcMaximumPossibleMomentOfInertia this in
  let I_maxB := CalcMaximumPossibleMomentOfInertia other in
  let I_test := std_min I_maxA I_maxB in
  let epsilon := precision * I_test in
  IsApproxMomentsAndProducts this other epsilon.

(** *** Arithmetic *)

(** [operator+=] *)
Definition operator_plus_eq (I_BP_E : RI) : Method RI unit :=
  modify (fun this =>
    {| I_SP_E_ := lower_update s_add (I_SP_E_ this) (get_matrix I_BP_E) |}).

(** [operator+] *)
Definition operator_plus (this I_BP_E : RI) : outcome RI :=
  on_copy this (operator_plus_eq I_BP_E).

Definition MinusEqualsUnchecked (I_BP_E : RI) : Method RI unit :=
  modify (fun this =>
    {| I_SP_E_ := lower_update s_sub (I_SP_E_ this) (get_matrix I_BP_E) |}).

(** [operator-=]: subtract, then check. *)
Definition operator_minus_eq (I_BP_E : RI) : Method RI unit :=
  MinusEqualsUnchecked I_BP_E ;;
  DRAKE_ASSERT_VOID (ThrowIfNotPhysicallyValid "operator-=").

(** [operator-] *)
Definition operator_minus (this I_BP_E : RI) : outcome RI :=
  on_copy this (operator_minus_eq I_BP_E).

(** [operator*=]: check, then scale. *)
Definition operator_times_eq (nonnegative_scalar : T) : Method RI unit :=
  DRAKE_ASSERT_VOID (eval (ThrowIfMultiplyByNegativeScalar nonnegative_scalar)) ;;
  modify (fun this =>
    {| I_SP_E_ := lower_scale (I_SP_E_ this) nonnegative_scalar |}).

(** [operator*(const T&)] *)
Definition operator_times (this : RI) (nonnegative_scalar : T) : outcome RI :=
  on_copy this (operator_times_eq nonnegative_scalar).

(** [friend operator*(const T&, const RotationalInertia<T>&)] *)
Definition scalar_times (nonnegative_scalar : T) (I_BP_E : RI) : outcome RI :=
  on_copy I_BP_E (operator_times_eq nonnegative_scalar).

(** [operator*(const Vector3<T>&)] *)
Definition operator_times_vector (this : RI) (w_E : Vector3 T) : Vector3 T :=
  let a := coeff (I_SP_E_ this) 0 0 in
  let b := coeff (I_SP_E_ this) 1 0 in
  let c := coeff (I_SP_E_ this) 2 0 in
  let d := coeff (I_SP_E_ this) 1 1 in
  let e := coeff (I_SP_E_ this) 2 1 in
  let f := coeff (I_SP_E_ this) 2 2 in
  let x := v0 w_E in
  let y := v1 w_E in
  let z := v2 w_E in
  mkVector3 (a * x + b * y + c * z) (b * x + d * y + e * z)
            (c * x + e * y + f * z).

(** [operator/=]: check, then scale by the reciprocal. *)
Definition operator_div_eq (positive_scalar : T) : Method RI unit :=
  DRAKE_ASSERT_VOID (eval (ThrowIfDivideByZeroOrNegativeScalar positive_scalar)) ;;
  let one_over_positive_scalar := s_one / positive_scalar in
  modify (fun this =>
    {| I_SP_E_ := lower_scale (I_SP_E_ this) one_over_positive_scalar |}).

(** [operator/] *)
Definition operator_div (this : RI) (positive_scalar : T) : outcome RI :=
  on_copy this (operator_div_eq positive_scalar).

Definition MultiplyByScalarSkipValidityCheck (this : RI) (s : T) : RI :=
  {| I_SP_E_ := lower_scale (I_SP_E_ this) s |}.

(** *** Shift methods *)

Definition ShiftFromCenterOfMassInPlace (mass : T) (p_BcmQ_E : Vector3 T)
  : Method RI unit :=
  I <- eval (RotationalInertia_point_mass mass p_BcmQ_E) ;;
  operator_plus_eq I.

Definition ShiftFromCenterOfMass (mass : T) (p_BcmQ_E : Vector3 T)
  : Method RI RI :=
  const_method (fun this =>
    on_copy this (ShiftFromCenterOfMassInPlace mass p_BcmQ_E)).

Definition ShiftToCenterOfMassInPlace (mass : T) (p_QBcm_E : Vector3 T)
  : Method RI unit :=
  I <- eval (RotationalInertia_point_mass mass p_QBcm_E) ;;
  operator_minus_eq I.

Definition ShiftToCenterOfMass (mass : T) (p_QBcm_E : Vector3 T)
  : Method RI RI :=
  const_method (fun this =>
    on_copy this (ShiftToCenterOfMassInPlace mass p_QBcm_E)).

(** A non-const member that does not touch the receiver's storage. *)
Definition ShiftUnitMassBodyToThenAwayFromCenterOfMass
    (p_PBcm_E p_QBcm_E : Vector3 T) : outcome RI :=
  shift_away <-- RotationalInertia_mass_p p_QBcm_E p_QBcm_E ;;
  shift_towards <-- RotationalInertia_mass_p p_PBcm_E p_PBcm_E ;;
  on_copy shift_away (MinusEqualsUnchecked shift_towards).

Definition ShiftToThenAwayFromCenterOfMassInPlace
    (mass : T) (p_PBcm_E p_QBcm_E : Vector3 T) : Method RI unit :=
  I <- eval (unit_shift <--
               ShiftUnitMassBodyToThenAwayFromCenterOfMass p_PBcm_E p_QBcm_E ;;
             scalar_times mass unit_shift) ;;
  operator_plus_eq I.

Definition ShiftToThenAwayFromCenterOfMass
    (mass : T) (p_PBcm_E p_QBcm_E : Vector3 T) : Method RI RI :=
  const_method (fun this =>
    on_copy this
      (ShiftToThenAwayFromCenterOfMassInPlace mass p_PBcm_E p_QBcm_E)).

End Class.

Arguments RotationalInertia_default {T _}.

(** ** The validity check of [rotational_inertia.cc] *)

Section Validity.
Context {T : Type} `{Scalar T}.
Local Open Scope scalar_scope.

(** The factor of the tolerance.  The specification fixes no value: epsilon
    is "a small numeric tolerance proportional to the tensor's scale", and the
    header's comment has it as "a small multiplier of Trace() / 2". *)
Variable precision : T.

(** Modelled from the spec: the body of
    [AreMomentsOfInertiaNearPositiveAndSatisfyTriangleInequality] is in
    [rotational_inertia.cc], which is not in src.  Section 4.2: "every moment
    is >= -epsilon (epsilon a small numeric tolerance proportional to the
    tensor's scale), and all three triangle-inequality constraints hold within
    epsilon".  The test of the moments is the header's own
    [AreMomentsOfInertiaNearPositive]. *)
Definition AreMomentsOfInertiaNearPositiveAndSatisfyTriangleInequality
    (this : RotationalInertia T) : bool :=
  let epsilon := precision * CalcMaximumPossibleMomentOfInertia this in
  let Ixx := v0 (get_moments this) in
  let Iyy := v1 (get_moments this) in
  let Izz := v2 (get_moments this) in
  AreMomentsOfInertiaNearPositive Ixx Iyy Izz epsilon &&
  ((Ixx + Iyy + epsilon >=? Izz) && (Ixx + Izz + epsilon >=? Iyy) &&
   (Iyy + Izz + epsilon >=? Ixx)).

(** Modelled from the spec: the body of [CreateInvalidityReport] is in
    [rotational_inertia.cc], which is not in src.  Sections 4.2 and 7: a
    tensor fails the check when a stored value is NaN, when a moment is
    negative beyond the tolerance, or when a triangle inequality is violated;
    otherwise there is no report. *)
Definition CreateInvalidityReport (this : RotationalInertia T) : option string :=
  if IsNaN this then
    Some "NaN detected in RotationalInertia."%string
  else if negb (AreMomentsOfInertiaNearPositiveAndSatisfyTriangleInequality this) then
    Some "The moments of inertia are negative or violate the triangle inequality."%string
  else None.

End Validity.

(** ** Definitions on the side of the specification and of the proofs *)

(** The tensor a constructor stores: the six values in the lower triangle,
    NaN above the diagonal. *)
Definition stored {T} `{Scalar T} (Ixx Iyy Izz Ixy Ixz Iyz : T) : RotationalInertia T :=
  {| I_SP_E_ := mkMatrix3 Ixx s_quiet_NaN s_quiet_NaN
                          Ixy Iyy         s_quiet_NaN
                          Ixz Iyz         Izz |}.

(** The tensor the helper constructor [RotationalInertia(mass_p_PQ_E, p_PQ_E)]
    stores before it is validated. *)
Definition mass_p_tensor {T} `{Scalar T} (mass_p_PQ_E p_PQ_E : Vector3 T)
  : RotationalInertia T :=
  let mx := v0 mass_p_PQ_E in
  let my := v1 mass_p_PQ_E in
  let mz := v2 mass_p_PQ_E in
  let x := v0 p_PQ_E in
  let y := v1 p_PQ_E in
  let z := v2 p_PQ_E in
  stored (my * y + mz * z)%S (mx * x + mz * z)%S (mx * x + my * y)%S
         (- mx * y)%S (- mx * z)%S (- my * z)%S.

(** The six values a tensor stores, in the order
    Ixx, Iyy, Izz, Ixy, Ixz, Iyz. *)
Definition six {T} (I : RotationalInertia T) : T * T * T * T * T * T :=
  let M := I_SP_E_ I in (m00 M, m11 M, m22 M, m10 M, m20 M, m21 M).

(** The check a constructor or a checked operation ends with:
    [DRAKE_ASSERT_VOID(ThrowIfNotPhysicallyValid(__func__))] on the object
    [I]. *)
Definition validated {T} (assert_armed : bool)
    (CreateInvalidityReport : RotationalInertia T -> option string)
    (func_name : string) (I : RotationalInertia T) : outcome unit :=
  if assert_armed then
    match CreateInvalidityReport I with
    | Some report => Thrown (InvalidConstruction func_name report)
    | None => Returned tt
    end
  else Returned tt.

(** [M] with its three coefficients above the diagonal replaced. *)
Definition with_upper {T} (M : Matrix3 T) (u01 u02 u12 : T) : Matrix3 T :=
  mkMatrix3 (m00 M) u01     u02
            (m10 M) (m11 M) u12
            (m20 M) (m21 M) (m22 M).

(** The validity check used to run the code on doubles: the model of
    [CreateInvalidityReport] with the tolerance factor 2^-48. *)
Definition double_check : RotationalInertia float -> option string :=
  CreateInvalidityReport 0x1p-48%float.

(** The formula in the specification's words: the tensor
    m (|d|^2 Identity - d d^T), entry (i, j) being
    m (|d|^2 delta_ij - d_i d_j), stored in the lower triangle. *)
Definition point_mass_tensor_spec {T} `{Scalar T} (m : T) (d : Vector3 T)
  : RotationalInertia T :=
  let x := v0 d in
  let y := v1 d in
  let z := v2 d in
  let norm2 := (x * x + y * y + z * z)%S in
  let entry (delta di dj : T) := (m * (norm2 * delta - di * dj))%S in
  stored (entry s_one x x) (entry s_one y y) (entry s_one z z)
         (entry s_zero y x) (entry s_zero z x) (entry s_zero z y).

(** Each of the six stored values of [A] is within [tol] of the
    corresponding value of [B]. *)
Definition within_tolerance {T} `{Scalar T} (A B : RotationalInertia T) (tol : T)
  : bool :=
  let '(Axx, Ayy, Azz, Axy, Axz, Ayz) := six A in
  let '(Bxx, Byy, Bzz, Bxy, Bxz, Byz) := six B in
  ((s_abs (Axx - Bxx) <=? tol) && (s_abs (Ayy - Byy) <=? tol) &&
   (s_abs (Azz - Bzz) <=? tol) &&
   ((s_abs (Axy - Bxy) <=? tol) && (s_abs (Axz - Bxz) <=? tol) &&
    (s_abs (Ayz - Byz) <=? tol)))%S.

(** None of the six differences between a stored value of [A] and the
    corresponding value of [B] is NaN. *)
Definition differences_are_numbers {T} `{Scalar T} (A B : RotationalInertia T)
  : bool :=
  let '(Axx, Ayy, Azz, Axy, Axz, Ayz) := six A in
  let '(Bxx, Byy, Bzz, Bxy, Bxz, Byz) := six B in
  (negb (s_isnan (Axx - Bxx)) && negb (s_isnan (Ayy - Byy)) &&
   negb (s_isnan (Azz - Bzz)) &&
   (negb (s_isnan (Axy - Bxy)) && negb (s_isnan (Axz - Bxz)) &&
    negb (s_isnan (Ayz - Byz))))%S.

(** The comparison in the specification's words: the tolerance is
    relativePrecision * min(maxPossibleMoment(A), maxPossibleMoment(B)) with
    maxPossibleMoment = 0.5 * trace. *)
Definition maxPossibleMoment_spec {T} `{Scalar T} (I : RotationalInertia T) : T :=
  (s_half * Trace I)%S.

Definition IsNearlyEqualTo_spec {T} `{Scalar T} (A B : RotationalInertia T)
    (relativePrecision : T) : bool :=
  within_tolerance A B
    (relativePrecision *
     std_min (maxPossibleMoment_spec A) (maxPossibleMoment_spec B))%S.

(** "(ShiftToCenterOfMassInPlace()).ShiftFromCenterOfMassInPlace()": the two
    public calls the fused shift is compared with. *)
Definition ShiftToThenFromCenterOfMass_two_calls {T} `{Scalar T}
    (assert_armed : bool) (chk : RotationalInertia T -> option string)
    (mass : T) (p_PBcm_E p_QBcm_E : Vector3 T) : Method (RotationalInertia T) unit :=
  (ShiftToCenterOfMassInPlace assert_armed chk mass p_PBcm_E ;;
   ShiftFromCenterOfMassInPlace assert_armed chk mass p_QBcm_E)%M.

(** The receiver after the fused shift: [this + mass * (away - towards)]. *)
Definition fused_shift {T} `{Scalar T} (mass : T) (p_PBcm_E p_QBcm_E : Vector3 T)
    (this : RotationalInertia T) : RotationalInertia T :=
  {| I_SP_E_ :=
       lower_update s_add (I_SP_E_ this)
         (lower_scale
            (lower_update s_sub (I_SP_E_ (mass_p_tensor p_QBcm_E p_QBcm_E))
                                (I_SP_E_ (mass_p_tensor p_PBcm_E p_PBcm_E)))
            mass) |}.

(** The product of a full 3x3 matrix and a vector, row by row. *)
Definition matrix_times_vector {T} `{Scalar T} (M : Matrix3 T) (w : Vector3 T)
  : Vector3 T :=
  mkVector3 (m00 M * v0 w + m01 M * v1 w + m02 M * v2 w)%S
            (m10 M * v0 w + m11 M * v1 w + m12 M * v2 w)%S
            (m20 M * v0 w + m21 M * v1 w + m22 M * v2 w)%S.

(** The tolerance of the validity check for the tensor [I]: the factor
    [precision] times the largest moment the tensor could have. *)
Definition tolerance {T} `{Scalar T} (precision : T) (I : RotationalInertia T) : T :=
  (precision * CalcMaximumPossibleMomentOfInertia I)%S.

(** [d . w], the dot product. *)
Definition vdot {T} `{Scalar T} (a b : Vector3 T) : T :=
  (v0 a * v0 b + v1 a * v1 b + v2 a * v2 b)%S.

(** The angular momentum m d x (w x d) = m (|d|^2 w - (d . w) d) of a
    particle of mass [m] at [d] turning with angular velocity [w]. *)
Definition particle_angular_momentum {T} `{Scalar T} (m : T) (d w : Vector3 T)
  : Vector3 T :=
  mkVector3 (m * (vdot d d * v0 w - vdot d w * v0 d))%S
            (m * (vdot d d * v1 w - vdot d w * v1 d))%S
            (m * (vdot d d * v2 w - vdot d w * v2 d))%S.

(** The three coefficients above the diagonal, which the class never uses. *)
Definition upper {T} (I : RotationalInertia T) : T * T * T :=
  let M := I_SP_E_ I in (m01 M, m02 M, m12 M).

(** ** The vehicle demo: [drake/automotive/automotive_demo.cc]

    The demo reads command-line flags, picks a road network and adds
    vehicles to a simulator.  The simulator ([AutomotiveSimulator], not in
    src) is seen through the calls the demo makes on it: a run yields the
    list of those calls, in order, and how the run ended.  32-bit [int]s are
    integers, with the truncating [/] and [%] of C++. *)

Module AutomotiveDemo.

Inductive RoadNetworkType : Type := flat | dragway | onramp.

(** How a function ends: it returns, throws [std::runtime_error], fails a
    [DRAKE_DEMAND], or has no defined behaviour (an integer division by
    zero or that overflows, a [double] that is converted to an [int] it does
    not fit).  An [int] is a [Z]: the counters of the loops stay below a
    flag, and the other operations on [int] are divisions. *)
Inductive status (A : Type) : Type :=
| Ok (a : A)
| runtime_error (what : string)
| assertion_failure (condition : string)
| undefined_behaviour.
Arguments runtime_error {A} what.
Arguments assertion_failure {A} condition.
Arguments undefined_behaviour {A}.

(** The gflags the functions read. *)
Record Flags : Type := {
  FLAGS_num_simple_car : Z;
  FLAGS_simple_car_names : string;
  FLAGS_num_trajectory_car : Z;
  FLAGS_num_idm_controlled_maliput_railcar : Z;
  FLAGS_num_maliput_railcar : Z;
  FLAGS_num_dragway_lanes : Z;
  FLAGS_dragway_base_speed : float;
  FLAGS_dragway_lane_speed_delta : float;
  FLAGS_dragway_vehicle_delay : float;
  FLAGS_with_onramp : bool;
  FLAGS_onramp_base_speed : float;
  FLAGS_onramp_swap_start : bool
}.

(** The parameters of a trajectory car.  [CreateTrajectoryParamsForDragway]
    and [CreateTrajectoryParams] are not in src: their results, which
    [AddVehicles] hands on to the simulator, are kept as the calls that make
    them (the first is also given the road geometry). *)
Inductive TrajectoryParams : Type :=
| CreateTrajectoryParamsForDragway (lane_index : Z) (speed start_time : float)
| CreateTrajectoryParams (index : Z).

(** The calls on the simulator.  [AddIdmControlledPriusMaliputRailcar] and
    [AddPriusMaliputRailcar] are given the lane of a dragway by its index,
    with the default direction and parameters, and the state [s], [speed];
    [AddPriusMaliputRailcar_FindLane] is [AddPriusMaliputRailcar] on the lane
    that [simulator->FindLane(lane_name)] returns, with the direction
    [with_s] and the parameters [r], [h]. *)
Inductive call : Type :=
| AddPriusSimpleCar (name channel_name : string) (y : float)
| AddPriusTrajectoryCar (name : string) (params : TrajectoryParams)
| AddIdmControlledPriusMaliputRailcar (name : string) (lane_index : Z)
    (s speed : float)
| AddPriusMaliputRailcar (name : string) (lane_index : Z) (s speed : float)
| AddPriusMaliputRailcar_FindLane (name lane_name : string) (with_s : bool)
    (r h s speed : float).

(** What [AddVehicles] looks at in the road geometry it is given: whether it
    is a dragway ([dynamic_cast]), and then the length of the lane of an
    index. *)
Inductive RoadGeometry : Type :=
| dragway_RoadGeometry (lane_length : Z -> float)
| other_RoadGeometry.

Definition kRailcarRowSpacing : float := 5%float.

(** [std::to_string(int)] *)
Definition to_string (i : Z) : string := NilZero.string_of_int (Z.to_int i).

(** The conversion of an [int] to [double]; exact on 32-bit values. *)
Definition double_of_int (i : Z) : float :=
  if (i <? 0)%Z then (- PrimFloat.of_uint63 (Uint63.of_Z (- i)))%float
  else PrimFloat.of_uint63 (Uint63.of_Z i).

(** The conversion of a [double] to [int]: the value with its fraction
    dropped, and no defined behaviour when that is not an [int]. *)
Definition int_of_double (x : float) : option Z :=
  match Prim2SF x with
  | S754_zero _ => Some 0%Z
  | S754_finite s m e =>
      let t := if (0 <=? e)%Z then (Z.pos m * 2 ^ e)%Z
               else (Z.pos m / 2 ^ (- e))%Z in
      let t := if s then (- t)%Z else t in
      if ((- 2 ^ 31 <=? t) && (t <=? 2 ^ 31 - 1))%Z then Some t else None
  | _ => None
  end.

(** [std::ceil]: the least integral value that is not less than [x]. *)
Definition ceil (x : float) : float :=
  match Prim2SF x with
  | S754_finite s m e =>
      if (0 <=? e)%Z then x
      else
        let d := (2 ^ (- e))%Z in
        if s then
          let t := (Z.pos m / d)%Z in
          if (t =? 0)%Z then (- 0)%float else (- double_of_int t)%float
        else double_of_int ((Z.pos m + d - 1) / d)
  | _ => x
  end.

Definition empty (s : string) : bool :=
  match s with EmptyString => true | String _ _ => false end.

Definition MakeChannelName (name : string) : string :=
  let default_prefix := "DRIVING_COMMAND"%string in
  if empty name then default_prefix
  else (default_prefix ++ "_" ++ name)%string.

Definition DetermineRoadNetworkType (F : Flags) : status RoadNetworkType :=
  let num_environments_selected := 0%Z in
  let num_environments_selected :=
    if FLAGS_with_onramp F then (num_environments_selected + 1)%Z
    else num_environments_selected in
  let num_environments_selected :=
    if negb (FLAGS_num_dragway_lanes F =? 0)%Z
    then (num_environments_selected + 1)%Z
    else num_environments_selected in
  if (1 <? num_environments_selected)%Z then
    runtime_error ("ERROR: More than one road network selected. Only " ++
                   "one road network can be selected at a time.")
  else if (0 <? FLAGS_num_dragway_lanes F)%Z then Ok dragway
  else if FLAGS_with_onramp F then Ok onramp
  else Ok flat.

(** One turn of the loop of [AddMaliputRailcar] for the car [i]: the call it
    makes on the simulator, or how it fails.  [lane_length] gives
    [lane->length()] for the lane of an index. *)
Definition AddMaliputRailcar_body (F : Flags) (lane_length : Z -> float)
    (idm_controlled : bool) (initial_s_offset : Z) (i : Z) : status call :=
  if (FLAGS_num_dragway_lanes F =? 0)%Z then undefined_behaviour else
  let lane_index := Z.rem i (FLAGS_num_dragway_lanes F) in
  let speed := (FLAGS_dragway_base_speed F +
                double_of_int lane_index * FLAGS_dragway_lane_speed_delta F)%float in
  let row := Z.quot i (FLAGS_num_dragway_lanes F) in
  let s_offset := (double_of_int initial_s_offset +
                   kRailcarRowSpacing * double_of_int row)%float in
  if (lane_length lane_index <=? s_offset)%float then
    runtime_error "Ran out of lane length to add a MaliputRailcar."
  else if idm_controlled then
    Ok (AddIdmControlledPriusMaliputRailcar
          ("IdmControlledMaliputRailcar" ++ to_string i) lane_index s_offset speed)
  else
    Ok (AddPriusMaliputRailcar
          ("MaliputRailcar" ++ to_string i) lane_index s_offset speed).

(** [for (int i = ...; i < num_cars; ++i)], with [todo] turns left. *)
Fixpoint AddMaliputRailcar_loop (F : Flags) (lane_length : Z -> float)
    (idm_controlled : bool) (initial_s_offset : Z) (todo : nat) (i : Z)
  : list call * status unit :=
  match todo with
  | O => (nil, Ok tt)
  | S todo' =>
      match AddMaliputRailcar_body F lane_length idm_controlled initial_s_offset i with
      | Ok c =>
          let '(calls, st) :=
            AddMaliputRailcar_loop F lane_length idm_controlled initial_s_offset
              todo' (i + 1) in
          (c :: calls, st)
      | runtime_error what => (nil, runtime_error what)
      | assertion_failure condition => (nil, assertion_failure condition)
      | undefined_behaviour => (nil, undefined_behaviour)
      end
  end.

Definition AddMaliputRailcar (F : Flags) (lane_length : Z -> float)
    (num_cars : Z) (idm_controlled : bool) (initial_s_offset : Z)
  : list call * status unit :=
  AddMaliputRailcar_loop F lane_length idm_controlled initial_s_offset
    (Z.to_nat num_cars) 0.

(** The names "0,1,...": the loop of [AddVehicles] that fills
    [simple_car_names] when the flag is empty. *)
Fixpoint default_car_names (todo : nat) (i : Z) (simple_car_names : string)
  : string :=
  match todo with
  | O => simple_car_names
  | S todo' =>
      let simple_car_names :=
        if negb (i =? 0)%Z then (simple_car_names ++ ",")%string
        else simple_car_names in
      default_car_names todo' (i + 1) (simple_car_names ++ to_string i)
  end.

(** [while (getline(stream, name, ','))]: the names read from what is left
    of the stream.  A call of [getline] extracts characters up to a comma,
    which it drops, or up to the end; it fails, and the loop ends, when it
    extracts nothing.  [name] is what the current call has read so far and
    [extracted] whether it has extracted a character. *)
Fixpoint getline_all (stream name : string) (extracted : bool) : list string :=
  match stream with
  | EmptyString => if extracted then name :: nil else nil
  | String c rest =>
      if Ascii.eqb c ","%char then name :: getline_all rest EmptyString false
      else getline_all rest (name ++ String c EmptyString) true
  end.

(** The body of the [while] loop: one simple car per name, [y_offset]
    growing by [kSimpleCarYSpacing]. *)
Fixpoint add_simple_cars (names : list string) (y_offset : float) : list call :=
  match names with
  | nil => nil
  | name :: names' =>
      let channel_name := MakeChannelName name in
      AddPriusSimpleCar name channel_name y_offset
        :: add_simple_cars names' (y_offset + 3)%float
  end.

(** A loop [for (int i = ...; i < n; ++i)] whose turn for [i] makes one call
    on the simulator or fails, with [todo] turns left. *)
Fixpoint for_each_car (body : Z -> status call) (todo : nat) (i : Z)
  : list call * status unit :=
  match todo with
  | O => (nil, Ok tt)
  | S todo' =>
      match body i with
      | Ok c =>
          let '(calls, st) := for_each_car body todo' (i + 1) in
          (c :: calls, st)
      | runtime_error what => (nil, runtime_error what)
      | assertion_failure condition => (nil, assertion_failure condition)
      | undefined_behaviour => (nil, undefined_behaviour)
      end
  end.

(** Two statements in sequence: the second runs when the first has
    returned, and the calls made so far stay made. *)
Definition and_then (first next : list call * status unit)
  : list call * status unit :=
  match first with
  | (calls, Ok _) => (calls ++ fst next, snd next)
  | (calls, st) => (calls, st)
  end.

(** [AddVehicles].  [road_geometry] is [None] for [nullptr];
    [FindLane_length] gives [lane->length()] for the lane that
    [simulator->FindLane] returns for a name. *)
Definition AddVehicles (F : Flags) (road_network_type : RoadNetworkType)
    (road_geometry : option RoadGeometry) (FindLane_length : string -> float)
  : list call * status unit :=
  if negb (FLAGS_num_simple_car F =? 0)%Z && negb (empty (FLAGS_simple_car_names F))
  then (nil, runtime_error ("Both --num_simple_car and --simple_car_names " ++
                            "specified. Only one can be specified at a time."))
  else
  and_then
    (if negb (FLAGS_num_simple_car F =? 0)%Z
        || negb (empty (FLAGS_simple_car_names F)) then
       let simple_car_names := FLAGS_simple_car_names F in
       let simple_car_names :=
         if empty (FLAGS_simple_car_names F)
         then default_car_names (Z.to_nat (FLAGS_num_simple_car F)) 0
                simple_car_names
         else simple_car_names in
       (add_simple_cars (getline_all simple_car_names EmptyString false) 0%float,
        Ok tt)
     else (nil, Ok tt))
    match road_network_type with
    | dragway =>
        match road_geometry with
        | None => (nil, assertion_failure "road_geometry != nullptr")
        | Some other_RoadGeometry =>
            (nil, assertion_failure "dragway_road_geometry != nullptr")
        | Some (dragway_RoadGeometry lane_length) =>
            and_then
              (for_each_car
                 (fun i =>
                    if (FLAGS_num_dragway_lanes F =? 0)%Z
                    then undefined_behaviour else
                    let lane_index := Z.rem i (FLAGS_num_dragway_lanes F) in
                    let speed :=
                      (FLAGS_dragway_base_speed F +
                       double_of_int lane_index *
                       FLAGS_dragway_lane_speed_delta F)%float in
                    let start_time :=
                      (double_of_int (Z.quot i (FLAGS_num_dragway_lanes F)) *
                       FLAGS_dragway_vehicle_delay F)%float in
                    Ok (AddPriusTrajectoryCar ("TrajectoryCar" ++ to_string i)
                          (CreateTrajectoryParamsForDragway lane_index speed
                             start_time)))
                 (Z.to_nat (FLAGS_num_trajectory_car F)) 0)
           (and_then
              (AddMaliputRailcar F lane_length
                 (FLAGS_num_idm_controlled_maliput_railcar F) true 0)
              (if (FLAGS_num_dragway_lanes F =? 0)%Z
                  || (FLAGS_num_idm_controlled_maliput_railcar F =? - 2 ^ 31)%Z
                     && (FLAGS_num_dragway_lanes F =? -1)%Z
               then (nil, undefined_behaviour) else
               let initial_s_offset :=
                 (ceil (double_of_int
                          (Z.quot (FLAGS_num_idm_controlled_maliput_railcar F)
                                  (FLAGS_num_dragway_lanes F)))
                  * kRailcarRowSpacing)%float in
               match int_of_double initial_s_offset with
               | None => (nil, undefined_behaviour)
               | Some initial_s_offset =>
                   AddMaliputRailcar F lane_length (FLAGS_num_maliput_railcar F)
                     false initial_s_offset
               end))
        end
    | onramp =>
        match road_geometry with
        | None => (nil, assertion_failure "road_geometry != nullptr")
        | Some _ =>
            for_each_car
              (fun i =>
                 let n := if FLAGS_onramp_swap_start F then (i + 1)%Z else i in
                 let lane_name :=
                   if (Z.rem n 2 =? 0)%Z then "l:onramp0"%string
                   else "l:pre0"%string in
                 let with_s := false in
                 Ok (AddPriusMaliputRailcar_FindLane
                       ("MaliputRailcar" ++ to_string i) lane_name with_s 0 0
                       (if with_s then 0%float else FindLane_length lane_name)
                       (FLAGS_onramp_base_speed F)))
              (Z.to_nat (FLAGS_num_maliput_railcar F)) 0
        end
    | flat =>
        for_each_car
          (fun i =>
             Ok (AddPriusTrajectoryCar ("TrajectoryCar" ++ to_string i)
                   (CreateTrajectoryParams i)))
          (Z.to_nat (FLAGS_num_trajectory_car F)) 0
    end.

(** *** Definitions on the side of the proofs *)

(** What a call on the simulator was given. *)
Definition call_name (c : call) : string :=
  match c with
  | AddPriusSimpleCar name _ _ => name
  | AddPriusTrajectoryCar name _ => name
  | AddIdmControlledPriusMaliputRailcar name _ _ _ => name
  | AddPriusMaliputRailcar name _ _ _ => name
  | AddPriusMaliputRailcar_FindLane name _ _ _ _ _ _ => name
  end.

Definition call_channel (c : call) : option string :=
  match c with
  | AddPriusSimpleCar _ channel_name _ => Some channel_name
  | _ => None
  end.




(** The channels the simple cars of a list of calls subscribe to. *)
Definition channels (calls : list call) : list string :=
  flat_map (fun c => match call_channel c with
                     | Some channel_name => channel_name :: nil
                     | None => nil
                     end) calls.

(** A name that holds no comma. *)
Fixpoint comma_free (s : string) : bool :=
  match s with
  | EmptyString => true
  | String c rest => negb (Ascii.eqb c ","%char) && comma_free rest
  end.

(** The names of a list with a comma between two of them, as the user
    writes them in [--simple_car_names]. *)
Fixpoint join (names : list string) : string :=
  match names with
  | nil => EmptyString
  | name :: nil => name
  | name :: names' => (name ++ "," ++ join names')%string
  end.

(** What the loop of [AddVehicles] appends to [simple_car_names] for the
    cars [i], [i + 1], ... after the first. *)
Fixpoint more_car_names (todo : nat) (i : Z) : string :=
  match todo with
  | O => EmptyString
  | S todo' => ("," ++ to_string i ++ more_car_names todo' (i + 1))%string
  end.

(** The numbers [i], [i + 1], ... of [todo] cars. *)
Fixpoint car_numbers (todo : nat) (i : Z) : list Z :=
  match todo with
  | O => nil
  | S todo' => i :: car_numbers todo' (i + 1)
  end.

End AutomotiveDemo.

(** ** Laws of the scalar types *)

(** Negation commutes with multiplication.  The law holds in a ring and in
    IEEE-754 arithmetic alike (the sign of a product is the exclusive or of
    the signs, and rounding is symmetric). *)
Class SignSymmetric (T : Type) `{Scalar T} : Prop := {
  mul_neg_l : forall a b : T, (- a * b = - (a * b))%S;
  mul_neg_r : forall a b : T, (a * - b = - (a * b))%S;
  neg_neg : forall a : T, (- - a = a)%S
}.
Arguments SignSymmetric T {_}.

(** Exact arithmetic: an ordered ring with a decidable total order, in which
    every value is a number. *)
Class ExactScalar (T : Type) `{Scalar T} : Prop := {
  exact_ring : ring_theory s_zero s_one s_add s_mul s_sub s_neg (@eq T);
  leb_refl : forall a : T, (a <=? a)%S = true;
  leb_trans : forall a b c : T,
    (a <=? b)%S = true -> (b <=? c)%S = true -> (a <=? c)%S = true;
  leb_total : forall a b : T, (a <=? b)%S = true \/ (b <=? a)%S = true;
  ltb_leb : forall a b : T, (a <? b)%S = negb (b <=? a)%S;
  leb_add_r : forall a b c : T,
    (a <=? b)%S = true -> (a + c <=? b + c)%S = true;
  leb_mul_nonneg : forall a b : T,
    (s_zero <=? a)%S = true -> (s_zero <=? b)%S = true ->
    (s_zero <=? a * b)%S = true;
  half_nonneg : (s_zero <=? s_half)%S = true;
  abs_spec : forall a : T, s_abs a = if (a <? s_zero)%S then (- a)%S else a;
  exact_not_nan : forall a : T, s_isnan a = false
}.
Arguments ExactScalar T {_}.

(** Exact arithmetic with division: an ordered field whose [operator==] is
    equality. *)
Class ExactField (T : Type) `{Scalar T} : Prop := {
  field_is_exact : ExactScalar T;
  div_inverse : forall s : T, s <> s_zero -> (s * (s_one / s))%S = s_one;
  eqb_eq : forall a b : T, (a =? b)%S = true <-> a = b
}.
Arguments ExactField T {_}.

(** The order of the numbers of a scalar type, NaN aside: [<=] is
    transitive, [<] is within [<=], on two values that are not NaN [a < b] is
    the negation of [b <= a], and [std::abs] of a number is a number.  The
    laws hold in IEEE-754 arithmetic and in exact arithmetic alike. *)
Class NumberOrder (T : Type) `{Scalar T} : Prop := {
  number_leb_trans : forall a b c : T,
    (a <=? b)%S = true -> (b <=? c)%S = true -> (a <=? c)%S = true;
  number_ltb_leb : forall a b : T, (a <? b)%S = true -> (a <=? b)%S = true;
  number_ltb_negb_leb : forall a b : T,
    s_isnan a = false -> s_isnan b = false -> (a <? b)%S = negb (b <=? a)%S;
  number_abs : forall a : T, s_isnan (s_abs a) = s_isnan a
}.
Arguments NumberOrder T {_}.

(** *** The laws of [double] *)

Lemma binary_round_aux_negb prec emax s m e l :
  binary_round_aux prec emax (negb s) m e l
  = SFopp (binary_round_aux prec emax s m e l).
Proof.
  unfold binary_round_aux.
  destruct (shr_fexp prec emax m e l) as [mrs' e'].
  destruct (shr_fexp prec emax _ e' loc_Exact) as [mrs'' e''].
  destruct (shr_m mrs''); try reflexivity.
  destruct (Z.leb e'' (emax - prec)); reflexivity.
Qed.

Lemma SFmul_opp_l prec emax x y :
  SFmul prec emax (SFopp x) y = SFopp (SFmul prec emax x y).
Proof.
  destruct x as [sx|sx| |sx mx ex], y as [sy|sy| |sy my ey]; simpl;
    try reflexivity; try (destruct sx, sy; reflexivity).
  rewrite <- binary_round_aux_negb. destruct sx, sy; reflexivity.
Qed.

Lemma SFmul_opp_r prec emax x y :
  SFmul prec emax x (SFopp y) = SFopp (SFmul prec emax x y).
Proof.
  destruct x as [sx|sx| |sx mx ex], y as [sy|sy| |sy my ey]; simpl;
    try reflexivity; try (destruct sx, sy; reflexivity).
  rewrite <- binary_round_aux_negb. destruct sx, sy; reflexivity.
Qed.

Lemma SFopp_involutive x : SFopp (SFopp x) = x.
Proof. destruct x; simpl; rewrite ?negb_involutive; reflexivity. Qed.

#[export] Instance double_sign_symmetric : SignSymmetric float.
Proof.
  split; intros; apply Prim2SF_inj; cbn [s_mul s_neg double].
  - rewrite mul_spec, !opp_spec, mul_spec. apply SFmul_opp_l.
  - rewrite mul_spec, !opp_spec, mul_spec. apply SFmul_opp_r.
  - rewrite !opp_spec. apply SFopp_involutive.
Qed.

Lemma SFleb_trans (x y z : spec_float) :
  SFleb x y = true -> SFleb y z = true -> SFleb x z = true.
Proof.
  unfold SFleb, SFcompare.
  destruct x as [sx|sx| |sx mx ex], y as [sy|sy| |sy my ey],
    z as [sz|sz| |sz mz ez];
    try destruct sx; try destruct sy; try destruct sz;
    try reflexivity; try discriminate; try (intros; assumption).
  all: change (Pos.compare_cont Eq ?a ?b) with (Pos.compare a b).
  all: destruct (Z.compare_spec ex ey), (Z.compare_spec ey ez),
         (Z.compare_spec ex ez); try lia; try reflexivity; try discriminate;
       destruct (Pos.compare_spec mx my), (Pos.compare_spec my mz),
         (Pos.compare_spec mx mz); cbn [CompOpp];
       try lia; try reflexivity; try discriminate.
Qed.

Lemma SFltb_negb_leb (x y : spec_float) :
  x <> S754_nan -> y <> S754_nan -> SFltb x y = negb (SFleb y x).
Proof.
  unfold SFleb, SFltb, SFcompare. intros Hx Hy.
  destruct x as [sx|sx| |sx mx ex], y as [sy|sy| |sy my ey];
    try contradiction;
    try destruct sx; try destruct sy; try reflexivity.
  all: change (Pos.compare_cont Eq ?a ?b) with (Pos.compare a b).
  all: rewrite (Z.compare_antisym ex ey), (Pos.compare_antisym mx my);
       destruct (ex ?= ey)%Z; cbn [CompOpp negb]; try reflexivity;
       destruct (mx ?= my)%positive; reflexivity.
Qed.

Lemma is_nan_spec_float (x : float) :
  is_nan x = match Prim2SF x with S754_nan => true | _ => false end.
Proof.
  unfold is_nan. rewrite FloatAxioms.eqb_spec. unfold SFeqb, SFcompare.
  destruct (Prim2SF x) as [s|s| |s m e]; try destruct s; try reflexivity.
  all: change (Pos.compare_cont Eq ?a ?b) with (Pos.compare a b).
  all: now rewrite Z.compare_refl, Pos.compare_refl.
Qed.

#[export] Instance double_number_order : NumberOrder float.
Proof.
  split; cbn [s_leb s_ltb s_isnan s_abs double].
  - intros a b c. rewrite !FloatAxioms.leb_spec. apply SFleb_trans.
  - intros a b. rewrite FloatAxioms.ltb_spec, FloatAxioms.leb_spec.
    unfold SFltb, SFleb.
    now destruct (SFcompare _ _) as [[| |]|].
  - intros a b.
    rewrite !is_nan_spec_float, FloatAxioms.ltb_spec, FloatAxioms.leb_spec.
    intros Ha Hb. apply SFltb_negb_leb; intros E.
    + rewrite E in Ha. discriminate.
    + rewrite E in Hb. discriminate.
  - intros a. rewrite !is_nan_spec_float, FloatAxioms.abs_spec.
    now destruct (Prim2SF a).
Qed.

(** *** The laws of [exact] *)

Lemma Qc_leb_iff (a b : Qc) : Qc_leb a b = true <-> (a <= b)%Qc.
Proof. unfold Qc_leb, Qcle. apply Qle_bool_iff. Qed.

#[export] Instance exact_is_exact : ExactScalar Qc.
Proof.
  split; cbn [s_zero s_one s_half s_add s_sub s_mul s_neg s_abs s_ltb s_leb
                s_isnan exact]; intros.
  - exact Qcrt.
  - apply Qc_leb_iff, Qcle_refl.
  - rewrite Qc_leb_iff in *. eapply Qcle_trans; eassumption.
  - rewrite !Qc_leb_iff. destruct (Qclt_le_dec a b) as [L|L].
    + left. now apply Qclt_le_weak.
    + now right.
  - reflexivity.
  - rewrite Qc_leb_iff in *. apply Qcplus_le_compat; [assumption|apply Qcle_refl].
  - rewrite Qc_leb_iff in *.
    replace 0%Qc with (0 * b)%Qc by ring.
    now apply Qcmult_le_compat_r.
  - reflexivity.
  - reflexivity.
  - reflexivity.
Qed.

(** *** Consequences of the laws *)

Section ExactLaws.
Context {T : Type} `{ExactScalar T}.
Local Open Scope scalar_scope.

Add Ring scalar_ring : exact_ring.

#[export] Instance exact_sign_symmetric : SignSymmetric T.
Proof. split; intros; ring. Qed.

Lemma leb_nonneg_add (a e : T) :
  (s_zero <=? a) = true -> (s_zero <=? e) = true -> (s_zero <=? a + e) = true.
Proof.
  intros Ha He. apply leb_trans with (b := a); [assumption|].
  replace a with (s_zero + a) at 1 by ring.
  replace (a + e) with (e + a) by ring.
  now apply leb_add_r.
Qed.

Lemma leb_add_nonneg_r (a b e : T) :
  (a <=? b) = true -> (s_zero <=? e) = true -> (a <=? b + e) = true.
Proof.
  intros Hab He. apply leb_trans with (b := b); [assumption|].
  replace b with (s_zero + b) at 1 by ring.
  replace (b + e) with (e + b) by ring.
  now apply leb_add_r.
Qed.

Lemma leb_shift (a e : T) : (s_zero <=? a + e) = (- e <=? a).
Proof.
  apply eq_true_iff_eq. split; intros L.
  - apply leb_add_r with (c := - e) in L.
    replace (s_zero + - e) with (- e) in L by ring.
    now replace (a + e + - e) with a in L by ring.
  - apply leb_add_r with (c := e) in L.
    now replace (- e + e) with s_zero in L by ring.
Qed.

Lemma abs_nonneg (a : T) : (s_zero <=? s_abs a) = true.
Proof.
  rewrite abs_spec, ltb_leb.
  destruct (s_zero <=? a) eqn:L; cbn [negb]; [assumption|].
  destruct (leb_total s_zero a) as [L'|L']; [congruence|].
  apply leb_add_r with (c := - a) in L'.
  replace (a + - a) with s_zero in L' by ring.
  now replace (s_zero + - a) with (- a) in L' by ring.
Qed.

Lemma std_max_leb (a b e : T) :
  (std_max a b <=? e) = (a <=? e) && (b <=? e).
Proof.
  unfold std_max. rewrite ltb_leb.
  apply eq_true_iff_eq. rewrite andb_true_iff.
  destruct (b <=? a) eqn:L; cbn [negb].
  - split; [|tauto]. intros La. split; [assumption|].
    now apply leb_trans with (b := a).
  - split; [|tauto]. intros Lb. split; [|assumption].
    destruct (leb_total a b) as [L'|L']; [|congruence].
    now apply leb_trans with (b := b).
Qed.

#[export] Instance exact_number_order : NumberOrder T.
Proof.
  split.
  - apply leb_trans.
  - intros a b. rewrite ltb_leb. intros L.
    destruct (leb_total a b) as [L'|L']; [assumption|].
    rewrite L' in L. discriminate.
  - intros a b _ _. apply ltb_leb.
  - intros a. now rewrite !exact_not_nan.
Qed.

End ExactLaws.

Section NumberOrderLaws.
Context {T : Type} `{NumberOrder T}.
Local Open Scope scalar_scope.

(** The maximum of two numbers is within a bound exactly when both are. *)
Lemma number_max_leb (a b e : T) :
  s_isnan a = false -> s_isnan b = false ->
  (std_max a b <=? e) = (a <=? e) && (b <=? e).
Proof.
  intros Ha Hb. unfold std_max. rewrite (number_ltb_negb_leb a b Ha Hb).
  apply eq_true_iff_eq. rewrite andb_true_iff.
  destruct (b <=? a) eqn:L; cbn [negb].
  - split; [|tauto]. intros La. split; [assumption|].
    now apply number_leb_trans with (b := a).
  - split; [|tauto]. intros Lb. split; [|assumption].
    apply number_leb_trans with (b := b); [|assumption].
    apply number_ltb_leb. now rewrite (number_ltb_negb_leb a b Ha Hb), L.
Qed.

Lemma number_max_is_number (a b : T) :
  s_isnan a = false -> s_isnan b = false -> s_isnan (std_max a b) = false.
Proof. intros Ha Hb. unfold std_max. now destruct (a <? b). Qed.

End NumberOrderLaws.

(** ** Running the methods symbolically *)

Create HintDb ri discriminated.

#[export] Hint Unfold
  mret mbind eval modify on_copy const_method obind construct
  DRAKE_ASSERT_VOID ThrowIfNotPhysicallyValid ThrowIfNotPhysicallyValidImpl
  ThrowIfMultiplyByNegativeScalar ThrowIfDivideByZeroOrNegativeScalar
  set_moments_and_products_no_validity_check SetZero SetToNaN
  RotationalInertia_6 RotationalInertia_3 RotationalInertia_mass_p
  RotationalInertia_point_mass RotationalInertia_matrix TriaxiallySymmetric
  MakeFromMomentsAndProductsOfInertia RotationalInertia_default
  operator_plus_eq operator_plus MinusEqualsUnchecked operator_minus_eq
  operator_minus operator_times_eq operator_times scalar_times
  operator_div_eq operator_div MultiplyByScalarSkipValidityCheck
  ShiftFromCenterOfMassInPlace ShiftFromCenterOfMass
  ShiftToCenterOfMassInPlace ShiftToCenterOfMass
  ShiftUnitMassBodyToThenAwayFromCenterOfMass
  ShiftToThenAwayFromCenterOfMassInPlace ShiftToThenAwayFromCenterOfMass
  get_matrix get_moments get_products Trace trace diagonal coeff
  CalcMaximumPossibleMomentOfInertia IsFinite IsNaN IsZero
  lower_update lower_scale lower_assign Zero Constant vscale vneg vsub
  : ri.

Ltac run := autounfold with ri; cbn [I_SP_E_ m00 m01 m02 m10 m11 m12 m20 m21 m22
                                       v0 v1 v2 fst snd].

Section Characterisations.
Context {T : Type} `{Scalar T}.
Variable assert_armed : bool.
Variable chk : RotationalInertia T -> option string.
Local Open Scope scalar_scope.

Lemma RotationalInertia_6_eq (Ixx Iyy Izz Ixy Ixz Iyz : T) :
  RotationalInertia_6 assert_armed chk Ixx Iyy Izz Ixy Ixz Iyz
  = obind (validated assert_armed chk "RotationalInertia"
             (stored Ixx Iyy Izz Ixy Ixz Iyz))
          (fun _ => Returned (stored Ixx Iyy Izz Ixy Ixz Iyz)).
Proof.
  unfold validated, stored. run.
  destruct assert_armed; [|reflexivity].
  now destruct (chk _).
Qed.

Lemma RotationalInertia_mass_p_eq (mp p : Vector3 T) :
  RotationalInertia_mass_p assert_armed chk mp p
  = obind (validated assert_armed chk "RotationalInertia" (mass_p_tensor mp p))
          (fun _ => Returned (mass_p_tensor mp p)).
Proof.
  unfold validated, mass_p_tensor, stored. run.
  destruct assert_armed; [|reflexivity].
  now destruct (chk _).
Qed.

Lemma operator_minus_eq_eq (other this : RotationalInertia T) :
  operator_minus_eq assert_armed chk other this
  = let diff := {| I_SP_E_ := lower_update s_sub (I_SP_E_ this) (I_SP_E_ other) |} in
    (diff, validated assert_armed chk "operator-=" diff).
Proof.
  unfold validated, operator_minus_eq, MinusEqualsUnchecked.
  unfold mbind, modify, DRAKE_ASSERT_VOID, ThrowIfNotPhysicallyValid,
    ThrowIfNotPhysicallyValidImpl, const_method, mret, get_matrix.
  cbv zeta. destruct assert_armed; [|reflexivity].
  now destruct (chk _).
Qed.

Lemma operator_times_eq_eq (s : T) (this : RotationalInertia T) :
  operator_times_eq assert_armed s this
  = if assert_armed && (s <? s_zero) then
      (this, Thrown (InvalidScale
         "Error: Rotational inertia is multiplied by a negative number."))
    else ({| I_SP_E_ := lower_scale (I_SP_E_ this) s |}, Returned tt).
Proof.
  unfold operator_times_eq, mbind, modify, DRAKE_ASSERT_VOID, eval, mret,
    ThrowIfMultiplyByNegativeScalar.
  destruct assert_armed; [|reflexivity]. cbn [andb].
  now destruct (s <? s_zero).
Qed.

Lemma operator_div_eq_eq (s : T) (this : RotationalInertia T) :
  operator_div_eq assert_armed s this
  = if assert_armed && (s =? s_zero) then
      (this, Thrown (InvalidScale "Error: Rotational inertia is divided by 0."))
    else if assert_armed && (s <? s_zero) then
      (this, Thrown (InvalidScale
         "Error: Rotational inertia is divided by a negative number"))
    else ({| I_SP_E_ := lower_scale (I_SP_E_ this) (s_one / s) |}, Returned tt).
Proof.
  unfold operator_div_eq, mbind, modify, DRAKE_ASSERT_VOID, eval, mret,
    ThrowIfDivideByZeroOrNegativeScalar.
  destruct assert_armed; [|reflexivity]. cbn [andb].
  destruct (s =? s_zero); [reflexivity|].
  now destruct (s <? s_zero).
Qed.

End Characterisations.

Section Shift.
Context {T : Type} `{Scalar T}.
Variable assert_armed : bool.
Variable chk : RotationalInertia T -> option string.
Local Open Scope scalar_scope.

Lemma RotationalInertia_point_mass_eq (m : T) (d : Vector3 T) :
  RotationalInertia_point_mass assert_armed chk m d
  = obind (validated assert_armed chk "RotationalInertia"
             (mass_p_tensor (vscale m d) d))
          (fun _ => Returned (mass_p_tensor (vscale m d) d)).
Proof. apply RotationalInertia_mass_p_eq. Qed.

Lemma ShiftFromCenterOfMassInPlace_eq (m : T) (d : Vector3 T)
    (this : RotationalInertia T) :
  ShiftFromCenterOfMassInPlace assert_armed chk m d this
  = match validated assert_armed chk "RotationalInertia"
            (mass_p_tensor (vscale m d) d) with
    | Thrown e => (this, Thrown e)
    | Returned _ =>
        ({| I_SP_E_ := lower_update s_add (I_SP_E_ this)
                         (I_SP_E_ (mass_p_tensor (vscale m d) d)) |},
         Returned tt)
    end.
Proof.
  unfold ShiftFromCenterOfMassInPlace, mbind, eval.
  rewrite RotationalInertia_point_mass_eq.
  now destruct (validated _ _ _ _).
Qed.

Lemma ShiftToCenterOfMassInPlace_eq (m : T) (d : Vector3 T)
    (this : RotationalInertia T) :
  ShiftToCenterOfMassInPlace assert_armed chk m d this
  = match validated assert_armed chk "RotationalInertia"
            (mass_p_tensor (vscale m d) d) with
    | Thrown e => (this, Thrown e)
    | Returned _ =>
        let diff := {| I_SP_E_ := lower_update s_sub (I_SP_E_ this)
                         (I_SP_E_ (mass_p_tensor (vscale m d) d)) |} in
        (diff, validated assert_armed chk "operator-=" diff)
    end.
Proof.
  unfold ShiftToCenterOfMassInPlace, mbind, eval.
  rewrite RotationalInertia_point_mass_eq.
  destruct (validated _ _ _ _); cbn [obind]; [|reflexivity].
  apply operator_minus_eq_eq.
Qed.

Lemma ShiftToThenAwayFromCenterOfMassInPlace_eq (m : T) (p q : Vector3 T)
    (this : RotationalInertia T) :
  ShiftToThenAwayFromCenterOfMassInPlace assert_armed chk m p q this
  = match validated assert_armed chk "RotationalInertia" (mass_p_tensor q q) with
    | Thrown e => (this, Thrown e)
    | Returned _ =>
        match validated assert_armed chk "RotationalInertia" (mass_p_tensor p p) with
        | Thrown e => (this, Thrown e)
        | Returned _ =>
            if assert_armed && (m <? s_zero) then
              (this, Thrown (InvalidScale
                 "Error: Rotational inertia is multiplied by a negative number."))
            else (fused_shift m p q this, Returned tt)
        end
    end.
Proof.
  unfold ShiftToThenAwayFromCenterOfMassInPlace,
    ShiftUnitMassBodyToThenAwayFromCenterOfMass, scalar_times, mbind, eval.
  rewrite !RotationalInertia_mass_p_eq.
  destruct (validated _ _ _ (mass_p_tensor q q)); cbn [obind]; [|reflexivity].
  destruct (validated _ _ _ (mass_p_tensor p p)); cbn [obind]; [|reflexivity].
  unfold on_copy, MinusEqualsUnchecked, modify, get_matrix. cbn [obind].
  rewrite operator_times_eq_eq.
  now destruct (assert_armed && (m <? s_zero)).
Qed.

End Shift.

(** ** The claims *)

(** *** Storage: the upper triangle is never read (C10) *)

(** C10.  [IsFinite], [IsNaN] and [IsZero] are functions of the six stored
    lower-triangular values alone: replacing the three coefficients above the
    diagonal by anything changes none of them.  [SetZero] and the setter
    write the lower triangle only, so the upper coefficients keep the NaN the
    object was initialized with; on doubles, after [SetZero] the object is
    finite, not NaN and zero although its matrix still holds NaN above the
    diagonal. *)
Theorem diagnostics_read_lower_triangle_only :
  (forall (T : Type) (S : Scalar T) (M : Matrix3 T) (u01 u02 u12 : T),
     let I := {| I_SP_E_ := M |} in
     let I' := {| I_SP_E_ := with_upper M u01 u02 u12 |} in
     IsFinite I' = IsFinite I /\ IsNaN I' = IsNaN I /\ IsZero I' = IsZero I) /\
  (forall (T : Type) (S : Scalar T) (this : RotationalInertia T)
          (Ixx Iyy Izz Ixy Ixz Iyz : T),
     let M := I_SP_E_ this in
     let Z := I_SP_E_ (fst (SetZero this)) in
     let W := I_SP_E_ (fst (set_moments_and_products_no_validity_check
                              Ixx Iyy Izz Ixy Ixz Iyz this)) in
     (m01 Z, m02 Z, m12 Z) = (m01 M, m02 M, m12 M) /\
     (m01 W, m02 W, m12 W) = (m01 M, m02 M, m12 M)) /\
  (let I := fst (SetZero (RotationalInertia_default (T := float))) in
   IsFinite I = true /\ IsNaN I = false /\ IsZero I = true /\
   I_SP_E_ I = mkMatrix3 0 nan nan 0 0 nan 0 0 0 /\
   is_nan (m01 (I_SP_E_ I)) = true /\ is_finite (m01 (I_SP_E_ I)) = false)%float.
Proof.
  split; [|split].
  - intros. repeat split; reflexivity.
  - intros. split; reflexivity.
  - repeat split; reflexivity.
Qed.

(** *** Scaling (C6) *)

(** C6, counterexample.  In a build where assertions are not armed (Release),
    multiplying the tensor with moments (1, 2, 3) by -1 raises nothing and
    leaves the moments (-1, -2, -3), and dividing it by 0 raises nothing
    either, although -1 is negative and 0 is zero. *)
Lemma scaling_unchecked_in_release :
  ((-1 <? 0) = true /\ (0 =? 0) = true /\
   six (fst (operator_times_eq false (-1) (stored 1 2 3 0 0 0)))
     = (-1, -2, -3, -0, -0, -0) /\
   snd (operator_times_eq false (-1) (stored 1 2 3 0 0 0)) = Returned tt /\
   snd (operator_div_eq false 0 (stored 1 2 3 0 0 0)) = Returned tt)%float.
Proof. repeat split; reflexivity. Qed.

(** C6, as amended.  In a build where assertions are armed (Debug),
    [operator*=] raises invalid-scale exactly when the scalar is negative and
    [operator/=] exactly when the scalar equals zero or is negative, and the
    receiver is then untouched; in every other case, and always when
    assertions are not armed, the call returns and the six stored values are
    scaled elementwise, by the scalar and by its reciprocal [1 / s]
    respectively. *)
Theorem scaling_checked_when_armed :
  forall (T : Type) (S : Scalar T) (s : T) (this : RotationalInertia T),
    let scaled k := {| I_SP_E_ := lower_scale (I_SP_E_ this) k |} in
    (operator_times_eq true s this
     = if (s <? s_zero)%S then
         (this, Thrown (InvalidScale
            "Error: Rotational inertia is multiplied by a negative number."))
       else (scaled s, Returned tt)) /\
    (operator_div_eq true s this
     = if (s =? s_zero)%S then
         (this, Thrown (InvalidScale "Error: Rotational inertia is divided by 0."))
       else if (s <? s_zero)%S then
         (this, Thrown (InvalidScale
            "Error: Rotational inertia is divided by a negative number"))
       else (scaled (s_one / s)%S, Returned tt)) /\
    operator_times_eq false s this = (scaled s, Returned tt) /\
    operator_div_eq false s this = (scaled (s_one / s)%S, Returned tt) /\
    (forall k : T,
       six (scaled k)
       = let M := I_SP_E_ this in
         (m00 M * k, m11 M * k, m22 M * k, m10 M * k, m20 M * k, m21 M * k)%S).
Proof.
  intros. rewrite !operator_times_eq_eq, !operator_div_eq_eq.
  cbn [andb]. repeat split; reflexivity.
Qed.

(** The specification's scenario for scaling, on doubles with assertions
    armed: the moments (1, 2, 3) times -1 raise invalid-scale, times 2 give
    (2, 4, 6). *)
Example double_scaling :
  (raises_invalid_scale (operator_times true (stored 1 2 3 0 0 0) (-1)) = true /\
   operator_times true (stored 1 2 3 0 0 0) 2 = Returned (stored 2 4 6 0 0 0))%float.
Proof. split; reflexivity. Qed.

(** *** What the receiver holds after a throw (C2) *)

(** C2, counterexample.  On doubles, in a build where assertions are armed,
    subtracting the tensor with moments (2, 2, 2) from the receiver with
    moments (1, 1, 1) raises invalid-construction, and the receiver then
    holds the moments (-1, -1, -1), not its moments before the call. *)
Lemma minus_eq_throws_after_mutating :
  (let this := stored 1 1 1 0 0 0 in
   let other := stored 2 2 2 0 0 0 in
   raises_invalid_construction
     (snd (operator_minus_eq true double_check other this)) = true /\
   six (fst (operator_minus_eq true double_check other this))
     = (-1, -1, -1, 0, 0, 0) /\
   six this = (1, 1, 1, 0, 0, 0))%float.
Proof. repeat split; reflexivity. Qed.

(** C2, as amended.  Whenever [operator*=], [operator/=],
    [ShiftFromCenterOfMassInPlace] or [ShiftToThenAwayFromCenterOfMassInPlace]
    raises, the receiver holds the values it held before the call: their
    checks precede the mutation.  The checked subtraction [operator-=]
    subtracts first and validates afterwards: whenever it raises, the
    receiver holds the elementwise difference [MinusEqualsUnchecked] leaves.
    Whenever [ShiftToCenterOfMassInPlace] raises, the receiver holds either
    its values before the call (the point-mass tensor was rejected) or the
    difference (the shifted tensor was rejected).  The const forms never
    touch the receiver: the three const shifts leave it as it was whether
    they return or raise, and the const operators [-], [*] and [/] return
    the receiver of the in-place operator run on a copy, or raise what it
    raises. *)
Theorem receiver_after_throw :
  forall (T : Type) (S : Scalar T) (armed : bool)
         (chk : RotationalInertia T -> option string)
         (this other : RotationalInertia T) (s mass : T) (p q : Vector3 T)
         (e : exception),
    (snd (operator_times_eq armed s this) = Thrown e ->
     fst (operator_times_eq armed s this) = this) /\
    (snd (operator_div_eq armed s this) = Thrown e ->
     fst (operator_div_eq armed s this) = this) /\
    (snd (ShiftFromCenterOfMassInPlace armed chk mass p this) = Thrown e ->
     fst (ShiftFromCenterOfMassInPlace armed chk mass p this) = this) /\
    (snd (ShiftToThenAwayFromCenterOfMassInPlace armed chk mass p q this) = Thrown e ->
     fst (ShiftToThenAwayFromCenterOfMassInPlace armed chk mass p q this) = this) /\
    (snd (operator_minus_eq armed chk other this) = Thrown e ->
     fst (operator_minus_eq armed chk other this)
     = fst (MinusEqualsUnchecked other this)) /\
    (snd (ShiftToCenterOfMassInPlace armed chk mass p this) = Thrown e ->
     fst (ShiftToCenterOfMassInPlace armed chk mass p this) = this \/
     exists pm, RotationalInertia_point_mass armed chk mass p = Returned pm /\
       fst (ShiftToCenterOfMassInPlace armed chk mass p this)
       = fst (MinusEqualsUnchecked pm this)) /\
    (fst (ShiftFromCenterOfMass armed chk mass p this) = this /\
     fst (ShiftToCenterOfMass armed chk mass p this) = this /\
     fst (ShiftToThenAwayFromCenterOfMass armed chk mass p q this) = this) /\
    (let copy (r : RotationalInertia T * outcome unit) :=
       match snd r with
       | Returned _ => Returned (fst r)
       | Thrown e' => Thrown e'
       end in
     operator_minus armed chk this other
     = copy (operator_minus_eq armed chk other this) /\
     operator_times armed this s = copy (operator_times_eq armed s this) /\
     operator_div armed this s = copy (operator_div_eq armed s this) /\
     snd (ShiftFromCenterOfMass armed chk mass p this)
     = copy (ShiftFromCenterOfMassInPlace armed chk mass p this) /\
     snd (ShiftToCenterOfMass armed chk mass p this)
     = copy (ShiftToCenterOfMassInPlace armed chk mass p this) /\
     snd (ShiftToThenAwayFromCenterOfMass armed chk mass p q this)
     = copy (ShiftToThenAwayFromCenterOfMassInPlace armed chk mass p q this)).
Proof.
  intros.
  assert (C : forall (m : Method (RotationalInertia T) unit),
             on_copy this m
             = match snd (m this) with
               | Returned _ => Returned (fst (m this))
               | Thrown e' => Thrown e'
               end).
  { intros m. unfold on_copy. now destruct (m this) as [J [u|e']]. }
  split; [|split; [|split; [|split; [|split; [|split; [|split]]]]]].
  - rewrite operator_times_eq_eq.
    destruct (armed && (s <? s_zero)%S); [reflexivity|discriminate].
  - rewrite operator_div_eq_eq.
    destruct (armed && (s =? s_zero)%S); [reflexivity|].
    destruct (armed && (s <? s_zero)%S); [reflexivity|discriminate].
  - rewrite ShiftFromCenterOfMassInPlace_eq.
    destruct (validated armed chk _ _); [discriminate|reflexivity].
  - rewrite ShiftToThenAwayFromCenterOfMassInPlace_eq.
    destruct (validated armed chk _ (mass_p_tensor q q)); [|reflexivity].
    destruct (validated armed chk _ (mass_p_tensor p p)); [|reflexivity].
    destruct (armed && (mass <? s_zero)%S); [reflexivity|discriminate].
  - rewrite operator_minus_eq_eq. reflexivity.
  - unfold ShiftToCenterOfMassInPlace, mbind, eval.
    destruct (RotationalInertia_point_mass armed chk mass p) as [pm|e'].
    + rewrite operator_minus_eq_eq. intros _. right. exists pm.
      split; reflexivity.
    + intros _. now left.
  - repeat split; reflexivity.
  - cbv zeta. unfold operator_minus, operator_times, operator_div,
      ShiftFromCenterOfMass, ShiftToCenterOfMass,
      ShiftToThenAwayFromCenterOfMass, const_method. cbn [snd].
    rewrite !C. repeat split; reflexivity.
Qed.

(** The amended C2 at work on the counterexample's input. *)
Lemma receiver_after_throw_witness :
  (let this := stored 1 1 1 0 0 0 in
   let other := stored 2 2 2 0 0 0 in
   let e := InvalidConstruction "operator-="
     "The moments of inertia are negative or violate the triangle inequality." in
   snd (operator_minus_eq true double_check other this) = Thrown e /\
   fst (operator_minus_eq true double_check other this)
   = fst (MinusEqualsUnchecked other this))%float.
Proof.
  cbv zeta. split; [reflexivity|].
  refine (proj1 (proj2 (proj2 (proj2 (proj2
    (@receiver_after_throw float double true double_check
       (stored 1 1 1 0 0 0)%float (stored 2 2 2 0 0 0)%float
       1%float 1%float (mkVector3 0 0 0)%float (mkVector3 0 0 0)%float
       (InvalidConstruction "operator-="
          "The moments of inertia are negative or violate the triangle inequality.")))))) _).
  reflexivity.
Defined.

(** *** Sign invariance of the point-mass tensor (C9) *)

Section SignInvariance.
Context {T : Type} `{SignSymmetric T}.
Variable assert_armed : bool.
Variable chk : RotationalInertia T -> option string.
Local Open Scope scalar_scope.

Lemma vscale_vneg (m : T) (d : Vector3 T) :
  vscale m (vneg d) = vneg (vscale m d).
Proof. unfold vscale, vneg; cbn [v0 v1 v2]. now rewrite !mul_neg_r. Qed.

Lemma RotationalInertia_mass_p_vneg (mp p : Vector3 T) :
  RotationalInertia_mass_p assert_armed chk (vneg mp) (vneg p)
  = RotationalInertia_mass_p assert_armed chk mp p.
Proof.
  rewrite !RotationalInertia_mass_p_eq.
  replace (mass_p_tensor (vneg mp) (vneg p)) with (mass_p_tensor mp p);
    [reflexivity|].
  unfold mass_p_tensor, vneg; cbn [v0 v1 v2].
  now rewrite ?neg_neg, ?mul_neg_l, ?mul_neg_r, ?neg_neg.
Qed.

Lemma RotationalInertia_point_mass_vneg (m : T) (d : Vector3 T) :
  RotationalInertia_point_mass assert_armed chk m (vneg d)
  = RotationalInertia_point_mass assert_armed chk m d.
Proof.
  unfold RotationalInertia_point_mass.
  now rewrite vscale_vneg, RotationalInertia_mass_p_vneg.
Qed.

Lemma ShiftUnitMassBody_vneg_P (p q : Vector3 T) :
  ShiftUnitMassBodyToThenAwayFromCenterOfMass assert_armed chk (vneg p) q
  = ShiftUnitMassBodyToThenAwayFromCenterOfMass assert_armed chk p q.
Proof.
  unfold ShiftUnitMassBodyToThenAwayFromCenterOfMass.
  now rewrite RotationalInertia_mass_p_vneg.
Qed.

Lemma ShiftUnitMassBody_vneg_Q (p q : Vector3 T) :
  ShiftUnitMassBodyToThenAwayFromCenterOfMass assert_armed chk p (vneg q)
  = ShiftUnitMassBodyToThenAwayFromCenterOfMass assert_armed chk p q.
Proof.
  unfold ShiftUnitMassBodyToThenAwayFromCenterOfMass.
  now rewrite RotationalInertia_mass_p_vneg.
Qed.

End SignInvariance.

(** C9.  For a scalar type whose multiplication commutes with negation
    (doubles and exact numbers alike), the point-mass constructor applied to
    (m, -d) has the same outcome as applied to (m, d): the same six stored
    values, or the same exception.  Consequently each shift operation, in
    place or result-returning, behaves the same when an offset passed to it
    is negated. *)
Theorem point_mass_sign_invariance :
  forall (T : Type) (S : Scalar T) (L : SignSymmetric T) (armed : bool)
         (chk : RotationalInertia T -> option string)
         (m : T) (d p q : Vector3 T) (this : RotationalInertia T),
    RotationalInertia_point_mass armed chk m (vneg d)
    = RotationalInertia_point_mass armed chk m d /\
    ShiftFromCenterOfMassInPlace armed chk m (vneg d) this
    = ShiftFromCenterOfMassInPlace armed chk m d this /\
    ShiftToCenterOfMassInPlace armed chk m (vneg d) this
    = ShiftToCenterOfMassInPlace armed chk m d this /\
    ShiftToThenAwayFromCenterOfMassInPlace armed chk m (vneg p) q this
    = ShiftToThenAwayFromCenterOfMassInPlace armed chk m p q this /\
    ShiftToThenAwayFromCenterOfMassInPlace armed chk m p (vneg q) this
    = ShiftToThenAwayFromCenterOfMassInPlace armed chk m p q this /\
    ShiftFromCenterOfMass armed chk m (vneg d) this
    = ShiftFromCenterOfMass armed chk m d this /\
    ShiftToCenterOfMass armed chk m (vneg d) this
    = ShiftToCenterOfMass armed chk m d this /\
    ShiftToThenAwayFromCenterOfMass armed chk m (vneg p) (vneg q) this
    = ShiftToThenAwayFromCenterOfMass armed chk m p q this.
Proof.
  intros.
  unfold ShiftFromCenterOfMass, ShiftToCenterOfMass,
    ShiftToThenAwayFromCenterOfMass, const_method,
    ShiftFromCenterOfMassInPlace, ShiftToCenterOfMassInPlace,
    ShiftToThenAwayFromCenterOfMassInPlace.
  rewrite !ShiftUnitMassBody_vneg_P, !ShiftUnitMassBody_vneg_Q,
    !RotationalInertia_point_mass_vneg.
  repeat split; reflexivity.
Qed.

(** C9 on doubles: mass 2 at the offsets (-1, -1, -0) and (1, 1, 0). *)
Lemma point_mass_sign_invariance_witness :
  (RotationalInertia_point_mass true double_check 2 (vneg (mkVector3 1 1 0))
   = RotationalInertia_point_mass true double_check 2 (mkVector3 1 1 0))%float.
Proof.
  exact (proj1 (@point_mass_sign_invariance float double double_sign_symmetric
                  true double_check 2%float (mkVector3 1 1 0)%float
                  (mkVector3 0 0 0)%float (mkVector3 0 0 0)%float
                  RotationalInertia_default)).
Defined.

(** *** The point-mass constructor (C7) *)

Section PointMass.
Context {T : Type} `{ExactScalar T}.
Local Open Scope scalar_scope.

Add Ring scalar_ring_pm : exact_ring.

Lemma point_mass_stored_formula (m : T) (d : Vector3 T) :
  mass_p_tensor (vscale m d) d = point_mass_tensor_spec m d.
Proof.
  unfold point_mass_tensor_spec, mass_p_tensor, stored, vscale; cbn [v0 v1 v2].
  do 2 f_equal; ring.
Qed.

End PointMass.

(** C7.  In exact arithmetic the point-mass constructor stores the tensor
    m (|d|^2 Identity - d d^T) and, in builds where assertions are armed,
    validates it before returning it.  On doubles, mass 2 at (1, 0, 0) stores
    the moments (0, 2, 2) and three products equal to zero (the negative
    zero), and mass 2 at (1, 1, 0) stores the moments (2, 2, 4), Ixy = -2 and
    two products equal to zero; both tensors pass the validity check. *)
Theorem point_mass_constructor :
  (forall (T : Type) (S : Scalar T) (E : ExactScalar T) (armed : bool)
          (chk : RotationalInertia T -> option string) (m : T) (d : Vector3 T),
     RotationalInertia_point_mass armed chk m d
     = obind (validated armed chk "RotationalInertia" (point_mass_tensor_spec m d))
             (fun _ => Returned (point_mass_tensor_spec m d))) /\
  (forall (armed : bool) (chk : RotationalInertia float -> option string),
     let I1 := stored 0 2 2 (-0) (-0) (-0) in
     let I2 := stored 2 2 4 (-2) (-0) (-0) in
     RotationalInertia_point_mass armed chk 2 (mkVector3 1 0 0)
     = obind (validated armed chk "RotationalInertia" I1) (fun _ => Returned I1) /\
     RotationalInertia_point_mass armed chk 2 (mkVector3 1 1 0)
     = obind (validated armed chk "RotationalInertia" I2) (fun _ => Returned I2) /\
     double_check I1 = None /\ double_check I2 = None /\
     RotationalInertia_point_mass true double_check 2 (mkVector3 1 0 0)
     = Returned I1 /\
     RotationalInertia_point_mass true double_check 2 (mkVector3 1 1 0)
     = Returned I2 /\
     (-0 =? 0) = true)%float.
Proof.
  split.
  - intros. unfold RotationalInertia_point_mass.
    rewrite RotationalInertia_mass_p_eq.
    now rewrite point_mass_stored_formula.
  - intros. unfold RotationalInertia_point_mass.
    rewrite !RotationalInertia_mass_p_eq.
    repeat split; reflexivity.
Qed.

(** C7 in exact arithmetic: mass 2 at (1, 1, 0) gives the moments
    (2, 2, 4), Ixy = -2 and no other product. *)
Lemma point_mass_constructor_witness :
  RotationalInertia_point_mass false (fun _ => None) (Q2Qc 2)
    (mkVector3 (Q2Qc 1) (Q2Qc 1) (Q2Qc 0))
  = Returned (point_mass_tensor_spec (Q2Qc 2)
                (mkVector3 (Q2Qc 1) (Q2Qc 1) (Q2Qc 0))) /\
  six (point_mass_tensor_spec (Q2Qc 2) (mkVector3 (Q2Qc 1) (Q2Qc 1) (Q2Qc 0)))
  = (Q2Qc 2, Q2Qc 2, Q2Qc 4, Q2Qc (-2), Q2Qc 0, Q2Qc 0).
Proof.
  split.
  - exact (proj1 point_mass_constructor Qc exact exact_is_exact false
             (fun _ => None) (Q2Qc 2) (mkVector3 (Q2Qc 1) (Q2Qc 1) (Q2Qc 0))).
  - unfold six, point_mass_tensor_spec, stored;
      cbn [I_SP_E_ m00 m01 m02 m10 m11 m12 m20 m21 m22 v0 v1 v2
           s_add s_sub s_mul s_one s_zero exact].
    repeat f_equal; apply Qc_is_canon; reflexivity.
Defined.

(** *** Near equality (C3) *)

(** C3, counterexample.  A tensor with the moments (-1, -1, -1), as the
    factory builds it when the validity check is skipped, is nearly equal to
    itself for the code, with the relative precision 2^-10: the code's
    tolerance is 2^-10 * 0.5 * |trace| = 1.5 * 2^-10.  With
    maxPossibleMoment = 0.5 * trace the tolerance is negative and no
    difference, not even 0, is within it.  And a NaN is not compared
    elementwise: the tensor with the moments (1, 1, 1) and the products
    (0, NaN, 0) is nearly equal to the one with the same moments and the
    products (0, 0, 0), although the difference NaN of the two Ixz is within
    no tolerance (the infinity norm, a running maximum taken with
    [operator<], steps over a NaN that is not the first coefficient; Eigen
    does not specify the norm of a vector that holds a NaN). *)
Lemma nearly_equal_negative_trace :
  (let A := stored (-1) (-1) (-1) 0 0 0 in
   MakeFromMomentsAndProductsOfInertia double_check (-1) (-1) (-1) 0 0 0 true
     = Returned A /\
   CalcMaximumPossibleMomentOfInertia A = 1.5 /\
   maxPossibleMoment_spec A = -1.5 /\
   IsNearlyEqualTo A A 0x1p-10 = true /\
   IsNearlyEqualTo_spec A A 0x1p-10 = false /\
   let N := stored 1 1 1 0 nan 0 in
   let B := stored 1 1 1 0 0 0 in
   MakeFromMomentsAndProductsOfInertia double_check 1 1 1 0 nan 0 true
     = Returned N /\
   IsNearlyEqualTo N B 0x1p-10 = true /\
   within_tolerance N B
     (0x1p-10 * std_min (CalcMaximumPossibleMomentOfInertia N)
                        (CalcMaximumPossibleMomentOfInertia B))%S = false /\
   IsNearlyEqualTo_spec N B 0x1p-10 = false)%float.
Proof. repeat split; reflexivity. Qed.

(** C3, as amended.  For doubles and exact numbers alike, the maximum
    possible moment of a tensor is 0.5 * |trace|, half the absolute value of
    Ixx + Iyy + Izz, and whenever none of the six differences between the
    stored values of [A] and of [B] is NaN (always so in exact arithmetic),
    [IsNearlyEqualTo] returns true exactly when each of the three moments and
    three products of [A] is within
    relativePrecision * min(maxA, maxB) of the corresponding value of [B],
    the minimum being maxB when maxB < maxA and maxA otherwise. *)
Theorem nearly_equal_elementwise :
  forall (T : Type) (S : Scalar T) (O : NumberOrder T)
         (A B : RotationalInertia T) (relativePrecision : T),
    (forall I : RotationalInertia T,
       CalcMaximumPossibleMomentOfInertia I
       = (s_half * s_abs (m00 (I_SP_E_ I) + m11 (I_SP_E_ I) + m22 (I_SP_E_ I)))%S) /\
    (differences_are_numbers A B = true ->
     let '(Axx, Ayy, Azz, _, _, _) := six A in
     let '(Bxx, Byy, Bzz, _, _, _) := six B in
     let maxA := (s_half * s_abs (Axx + Ayy + Azz))%S in
     let maxB := (s_half * s_abs (Bxx + Byy + Bzz))%S in
     let min := if (maxB <? maxA)%S then maxB else maxA in
     IsNearlyEqualTo A B relativePrecision
     = within_tolerance A B (relativePrecision * min)%S) /\
    (ExactScalar T -> differences_are_numbers A B = true).
Proof.
  intros. split; [reflexivity|]. split.
  - unfold differences_are_numbers, IsNearlyEqualTo, IsApproxMomentsAndProducts,
      lpNorm_Infinity, within_tolerance, six, get_moments, get_products,
      diagonal, vsub, coeff, std_min, CalcMaximumPossibleMomentOfInertia,
      Trace, trace; cbn [v0 v1 v2]. cbv zeta.
    rewrite !andb_true_iff, !negb_true_iff.
    intros [[[N0 N1] N2] [[N3 N4] N5]].
    rewrite <- number_abs in N0, N1, N2, N3, N4, N5.
    rewrite !number_max_leb; try assumption;
      try (apply number_max_is_number; assumption).
    reflexivity.
  - intros E. unfold differences_are_numbers, six.
    now rewrite !exact_not_nan.
Qed.

(** C3 on doubles: the tensors with moments (1, 1, 1) and (1, 1, 2) are not
    within 1/2 * min(3/2, 2) = 3/4 of each other; those with moments
    (1, 1, 1) and (1, 1, 1.5) are. *)
Lemma nearly_equal_elementwise_witness :
  (let A := stored 1 1 1 0 0 0 in
   let B := stored 1 1 2 0 0 0 in
   let C := stored 1 1 1.5 0 0 0 in
   differences_are_numbers A B = true /\
   IsNearlyEqualTo A B 0.5
   = within_tolerance A B (0.5 * (0.5 * abs (1 + 1 + 1))) /\
   IsNearlyEqualTo A B 0.5 = false /\
   IsNearlyEqualTo A C 0.5 = true)%float.
Proof.
  cbv zeta. split; [reflexivity|]. split.
  - exact (proj1 (proj2 (@nearly_equal_elementwise float double
             double_number_order
             (stored 1 1 1 0 0 0)%float (stored 1 1 2 0 0 0)%float 0.5%float))
             eq_refl).
  - split; reflexivity.
Defined.

(** *** The validity check (C1) *)

Section ValidityCheck.
Context {T : Type} `{Scalar T}.
Variable precision : T.
Local Open Scope scalar_scope.

Lemma CouldBePhysicallyValid_eq (I : RotationalInertia T) :
  CouldBePhysicallyValid (CreateInvalidityReport precision) I
  = negb (IsNaN I) &&
    AreMomentsOfInertiaNearPositiveAndSatisfyTriangleInequality precision I.
Proof.
  unfold CouldBePhysicallyValid, CreateInvalidityReport.
  destruct (IsNaN I); [reflexivity|].
  now destruct (AreMomentsOfInertiaNearPositiveAndSatisfyTriangleInequality _ _).
Qed.

Lemma CouldBePhysicallyValid_iff (I : RotationalInertia T) :
  let '(Ixx, Iyy, Izz, _, _, _) := six I in
  let epsilon := tolerance precision I in
  CouldBePhysicallyValid (CreateInvalidityReport precision) I = true <->
  IsNaN I = false /\
  ((s_zero <=? Ixx + epsilon) = true /\ (s_zero <=? Iyy + epsilon) = true /\
   (s_zero <=? Izz + epsilon) = true) /\
  ((Izz <=? Ixx + Iyy + epsilon) = true /\ (Iyy <=? Ixx + Izz + epsilon) = true /\
   (Ixx <=? Iyy + Izz + epsilon) = true).
Proof.
  cbn [six]. cbv zeta. rewrite CouldBePhysicallyValid_eq.
  unfold AreMomentsOfInertiaNearPositiveAndSatisfyTriangleInequality,
    AreMomentsOfInertiaNearPositive, tolerance, get_moments, diagonal;
    cbn [v0 v1 v2].
  rewrite !andb_true_iff, negb_true_iff. tauto.
Qed.

End ValidityCheck.

Section ValidityCheckExact.
Context {T : Type} `{ExactScalar T}.
Variable precision : T.
Hypothesis precision_nonneg : (s_zero <=? precision)%S = true.
Local Open Scope scalar_scope.

Add Ring scalar_ring_v : exact_ring.

Lemma tolerance_nonneg (I : RotationalInertia T) :
  (s_zero <=? tolerance precision I) = true.
Proof.
  unfold tolerance, CalcMaximumPossibleMomentOfInertia.
  apply leb_mul_nonneg; [assumption|].
  apply leb_mul_nonneg; [apply half_nonneg|apply abs_nonneg].
Qed.

Lemma triangle_is_valid (a b c : T) :
  (s_zero <=? a) = true -> (s_zero <=? b) = true -> (s_zero <=? c) = true ->
  (c <=? a + b) = true -> (b <=? a + c) = true -> (a <=? b + c) = true ->
  CreateInvalidityReport precision (stored a b c s_zero s_zero s_zero) = None.
Proof.
  intros Ha Hb Hc Hab Hac Hbc.
  pose proof (tolerance_nonneg (stored a b c s_zero s_zero s_zero)) as He.
  unfold CreateInvalidityReport.
  replace (IsNaN (stored a b c s_zero s_zero s_zero)) with false
    by (unfold IsNaN; now rewrite !exact_not_nan).
  unfold AreMomentsOfInertiaNearPositiveAndSatisfyTriangleInequality,
    AreMomentsOfInertiaNearPositive.
  fold (tolerance precision (stored a b c s_zero s_zero s_zero)).
  set (e := tolerance precision _) in *.
  cbn [get_moments diagonal stored I_SP_E_ m00 m11 m22 v0 v1 v2].
  rewrite !leb_nonneg_add, !leb_add_nonneg_r by assumption.
  reflexivity.
Qed.

End ValidityCheckExact.

(** C1.  Against the validity check as the specification describes it:
    [CouldBePhysicallyValid] is true if and only if none of the six stored
    values is NaN, each moment plus epsilon is at least zero and each sum of
    two moments plus epsilon is at least the third, where epsilon is the
    tolerance factor times half the absolute value of Ixx + Iyy + Izz; in
    exact arithmetic "moment + epsilon >= 0" says "moment >= -epsilon".  In
    particular, in exact arithmetic with a non-negative tolerance factor,
    three non-negative moments that satisfy the three triangle inequalities,
    with zero products, are accepted by the constructor and could be
    physically valid.  On doubles: the moments (3, 4, 5) with zero products
    could be valid; with Ixx perturbed below -(Iyy + Izz - Ixx) = -6, with a
    violated triangle inequality, or with a NaN product, they could not. *)
Theorem could_be_physically_valid_spec :
  (forall (T : Type) (S : Scalar T) (precision : T) (I : RotationalInertia T),
     let '(Ixx, Iyy, Izz, Ixy, Ixz, Iyz) := six I in
     let epsilon := precision * (s_half * s_abs (Ixx + Iyy + Izz)) in
     CouldBePhysicallyValid (CreateInvalidityReport precision) I = true <->
     (s_isnan Ixx = false /\ s_isnan Iyy = false /\ s_isnan Izz = false /\
      s_isnan Ixy = false /\ s_isnan Ixz = false /\ s_isnan Iyz = false) /\
     ((s_zero <=? Ixx + epsilon) = true /\ (s_zero <=? Iyy + epsilon) = true /\
      (s_zero <=? Izz + epsilon) = true) /\
     ((Izz <=? Ixx + Iyy + epsilon) = true /\
      (Iyy <=? Ixx + Izz + epsilon) = true /\
      (Ixx <=? Iyy + Izz + epsilon) = true))%S /\
  (forall (T : Type) (S : Scalar T) (E : ExactScalar T) (precision : T),
     (forall epsilon Ixx : T, (s_zero <=? Ixx + epsilon) = (- epsilon <=? Ixx))%S /\
     ((s_zero <=? precision)%S = true ->
      forall a b c : T,
        (s_zero <=? a)%S = true -> (s_zero <=? b)%S = true ->
        (s_zero <=? c)%S = true ->
        (c <=? a + b)%S = true -> (b <=? a + c)%S = true ->
        (a <=? b + c)%S = true ->
        let I := stored a b c s_zero s_zero s_zero in
        CouldBePhysicallyValid (CreateInvalidityReport precision) I = true /\
        forall armed : bool,
          RotationalInertia_3 armed (CreateInvalidityReport precision) a b c
          = Returned I)) /\
  (CouldBePhysicallyValid double_check (stored 3 4 5 0 0 0) = true /\
   CouldBePhysicallyValid double_check (stored (-7) 4 5 0 0 0) = false /\
   CouldBePhysicallyValid double_check (stored 1 1 3 0 0 0) = false /\
   CouldBePhysicallyValid double_check (stored 3 4 5 0 nan 0) = false)%float.
Proof.
  split; [|split].
  - intros T S precision I.
    pose proof (CouldBePhysicallyValid_iff precision I) as P.
    unfold tolerance, CalcMaximumPossibleMomentOfInertia, Trace, trace, IsNaN,
      coeff in P.
    destruct I as [M]. cbn [six I_SP_E_] in *. cbv zeta in P.
    rewrite P, !orb_false_iff. tauto.
  - intros. split; [intros; apply leb_shift|].
    intros Hp a b c Ha Hb Hc Hab Hac Hbc I.
    assert (V : CreateInvalidityReport precision I = None)
      by (apply triangle_is_valid; assumption).
    split.
    + unfold CouldBePhysicallyValid. now rewrite V.
    + intros armed. unfold RotationalInertia_3.
      rewrite RotationalInertia_6_eq. fold I. unfold validated.
      rewrite V. now destruct armed.
  - repeat split; reflexivity.
Qed.

(** C1 in exact arithmetic: the moments (3, 4, 5) with the tolerance factor
    1/1000; and on doubles, from the six conditions, with the tolerance
    factor 2^-48. *)
Lemma could_be_physically_valid_spec_witness :
  (let precision := Q2Qc (1 # 1000) in
   let I := stored (Q2Qc 3) (Q2Qc 4) (Q2Qc 5) (Q2Qc 0) (Q2Qc 0) (Q2Qc 0) in
   (s_zero <=? precision)%S = true /\
   CouldBePhysicallyValid (CreateInvalidityReport precision) I = true /\
   forall armed : bool,
     RotationalInertia_3 armed (CreateInvalidityReport precision)
       (Q2Qc 3) (Q2Qc 4) (Q2Qc 5)
     = Returned I) /\
  CouldBePhysicallyValid (CreateInvalidityReport 0x1p-48%float)
    (stored 3 4 5 0 0 0)%float = true.
Proof.
  cbv zeta. split.
  - split; [reflexivity|].
    exact (proj2 (proj1 (proj2 could_be_physically_valid_spec) Qc exact
                    exact_is_exact (Q2Qc (1 # 1000)))
             eq_refl (Q2Qc 3) (Q2Qc 4) (Q2Qc 5)
             eq_refl eq_refl eq_refl eq_refl eq_refl eq_refl).
  - apply (proj1 could_be_physically_valid_spec float double 0x1p-48%float
             (stored 3 4 5 0 0 0)%float).
    repeat split; reflexivity.
Defined.

(** The validity check on doubles: a 3-4-5 triangle passes; a violated
    triangle inequality, a negative moment and a NaN product do not. *)
Example double_validity :
  (CouldBePhysicallyValid double_check (stored 3 4 5 0 0 0) = true /\
   CouldBePhysicallyValid double_check (stored 1 1 3 0 0 0) = false /\
   CouldBePhysicallyValid double_check (stored (-1) 4 4 0 0 0) = false /\
   CouldBePhysicallyValid double_check (stored 3 4 5 nan 0 0) = false /\
   CouldBePhysicallyValid double_check RotationalInertia_default = false)%float.
Proof. repeat split; reflexivity. Qed.

(** *** Shifts (C4, C5) *)


Section ShiftExact.
Context {T : Type} `{ExactScalar T}.
Local Open Scope scalar_scope.

Add Ring scalar_ring_shift : exact_ring.


Lemma lower_sub_add_cancel (M N : Matrix3 T) :
  lower_update s_sub (lower_update s_add M N) N = M.
Proof.
  destruct M, N. unfold lower_update; cbn [m00 m01 m02 m10 m11 m12 m20 m21 m22].
  f_equal; ring.
Qed.

Lemma two_calls_fused_values (m : T) (p q : Vector3 T) (M : Matrix3 T) :
  lower_update s_add
    (lower_update s_sub M (I_SP_E_ (mass_p_tensor (vscale m p) p)))
    (I_SP_E_ (mass_p_tensor (vscale m q) q))
  = lower_update s_add M
      (lower_scale
         (lower_update s_sub (I_SP_E_ (mass_p_tensor q q))
                             (I_SP_E_ (mass_p_tensor p p))) m).
Proof.
  destruct M. unfold lower_update, lower_scale, mass_p_tensor, stored, vscale;
    cbn [I_SP_E_ m00 m01 m02 m10 m11 m12 m20 m21 m22 v0 v1 v2].
  f_equal; ring.
Qed.

End ShiftExact.

(** C4, counterexample.  On doubles, with the receiver's moments (1, 1, 1)
    and mass 1: for the offsets p = (0, 0x1.3333333333333p-2, 0) and
    q = (0, 0.5, 0) both forms return, in every build, and the moments they
    leave differ in the last bit; for p = (10, 0, 0) and q = (0, 0, 0), in a
    build where assertions are armed, the two calls raise
    invalid-construction while the fused form returns the moments
    (1, -99, -99), which fail the validity check: the final sum is not
    validated.  The const [ShiftToThenAwayFromCenterOfMass] returns what the
    in-place form leaves.  And the results can be far apart: for
    p = q = (1e10, 0, 0), where assertions are not armed, the two calls
    leave the moments (1, 0, 0), the point-mass terms of 1e20 having
    absorbed the moments 1, while the fused form returns (1, 1, 1); the two
    are not nearly equal, even with the relative precision 0.5. *)
Lemma fused_shift_differs_from_two_calls :
  (let I := stored 1 1 1 0 0 0 in
   let p := mkVector3 0 0x1.3333333333333p-2 0 in
   let q := mkVector3 0 0.5 0 in
   let p' := mkVector3 10 0 0 in
   let q' := mkVector3 0 0 0 in
   ShiftToThenFromCenterOfMass_two_calls true double_check 1 p q I
   = (stored 0x1.28f5c28f5c29p+0 1 0x1.28f5c28f5c29p+0 0 0 0, Returned tt) /\
   ShiftToThenAwayFromCenterOfMassInPlace true double_check 1 p q I
   = (stored 0x1.28f5c28f5c28fp+0 1 0x1.28f5c28f5c28fp+0 0 0 0, Returned tt) /\
   ShiftToThenFromCenterOfMass_two_calls false double_check 1 p q I
   = (stored 0x1.28f5c28f5c29p+0 1 0x1.28f5c28f5c29p+0 0 0 0, Returned tt) /\
   ShiftToThenAwayFromCenterOfMassInPlace false double_check 1 p q I
   = (stored 0x1.28f5c28f5c28fp+0 1 0x1.28f5c28f5c28fp+0 0 0 0, Returned tt) /\
   raises_invalid_construction
     (snd (ShiftToThenFromCenterOfMass_two_calls true double_check 1 p' q' I))
   = true /\
   ShiftToThenAwayFromCenterOfMassInPlace true double_check 1 p' q' I
   = (stored 1 (-99) (-99) 0 0 0, Returned tt) /\
   CouldBePhysicallyValid double_check (stored 1 (-99) (-99) 0 0 0) = false /\
   ShiftToThenAwayFromCenterOfMass true double_check 1 p q I
   = (I, Returned (stored 0x1.28f5c28f5c28fp+0 1 0x1.28f5c28f5c28fp+0 0 0 0)) /\
   ShiftToThenAwayFromCenterOfMass true double_check 1 p' q' I
   = (I, Returned (stored 1 (-99) (-99) 0 0 0)) /\
   let g := mkVector3 1e10 0 0 in
   ShiftToThenFromCenterOfMass_two_calls false double_check 1 g g I
   = (stored 1 0 0 0 0 0, Returned tt) /\
   ShiftToThenAwayFromCenterOfMass false double_check 1 g g I
   = (I, Returned (stored 1 1 1 0 0 0)) /\
   IsNearlyEqualTo (stored 1 0 0 0 0 0) (stored 1 1 1 0 0 0) 0.5 = false)%float.
Proof.
  cbv zeta. repeat split; reflexivity.
Qed.

(** C4, as amended.  In exact arithmetic, whenever the two calls
    [ShiftToCenterOfMassInPlace(m, p)], [ShiftFromCenterOfMassInPlace(m, q)]
    return and the fused shift returns, the tensor that the const
    [ShiftToThenAwayFromCenterOfMass(m, p, q)] returns, which is the one
    its in-place form leaves in the receiver, holds the stored values the
    two calls leave, namely [this + m * (away - towards)] with the
    difference of the two unit point-mass tensors taken by the unchecked
    subtraction; the const form leaves its receiver as it was; and in a
    build where assertions are not armed both always return. *)
Theorem fused_shift_agrees_with_two_calls :
  forall (T : Type) (S : Scalar T) (E : ExactScalar T) (armed : bool)
         (chk : RotationalInertia T -> option string) (m : T) (p q : Vector3 T)
         (I R1 R2 : RotationalInertia T),
    (ShiftToThenFromCenterOfMass_two_calls armed chk m p q I = (R1, Returned tt) ->
     ShiftToThenAwayFromCenterOfMassInPlace armed chk m p q I = (R2, Returned tt) ->
     R1 = R2 /\ R2 = fused_shift m p q I) /\
    ShiftToThenFromCenterOfMass_two_calls false chk m p q I
    = (fused_shift m p q I, Returned tt) /\
    ShiftToThenAwayFromCenterOfMassInPlace false chk m p q I
    = (fused_shift m p q I, Returned tt) /\
    fst (ShiftToThenAwayFromCenterOfMass armed chk m p q I) = I /\
    (ShiftToThenFromCenterOfMass_two_calls armed chk m p q I = (R1, Returned tt) ->
     snd (ShiftToThenAwayFromCenterOfMass armed chk m p q I) = Returned R2 ->
     R1 = R2 /\ R2 = fused_shift m p q I) /\
    ShiftToThenAwayFromCenterOfMass false chk m p q I
    = (I, Returned (fused_shift m p q I)).
Proof.
  intros.
  assert (V : forall J : RotationalInertia T,
             {| I_SP_E_ := lower_update s_add
                  (I_SP_E_ {| I_SP_E_ := lower_update s_sub (I_SP_E_ J)
                                (I_SP_E_ (mass_p_tensor (vscale m p) p)) |})
                  (I_SP_E_ (mass_p_tensor (vscale m q) q)) |}
             = fused_shift m p q J).
  { intros J. unfold fused_shift. cbn [I_SP_E_].
    now rewrite two_calls_fused_values. }
  assert (P : forall R : RotationalInertia T,
             ShiftToThenFromCenterOfMass_two_calls armed chk m p q I
             = (R1, Returned tt) ->
             ShiftToThenAwayFromCenterOfMassInPlace armed chk m p q I
             = (R, Returned tt) ->
             R1 = R /\ R = fused_shift m p q I).
  { intros R. unfold ShiftToThenFromCenterOfMass_two_calls, mbind.
    rewrite !ShiftToCenterOfMassInPlace_eq,
      !ShiftToThenAwayFromCenterOfMassInPlace_eq.
    destruct (validated armed chk _ (mass_p_tensor (vscale m p) p));
      [|discriminate].
    cbv zeta. destruct (validated armed chk "operator-=" _); [|discriminate].
    rewrite ShiftFromCenterOfMassInPlace_eq.
    destruct (validated armed chk _ (mass_p_tensor (vscale m q) q));
      [|discriminate].
    rewrite V. intros [= <-].
    destruct (validated armed chk _ (mass_p_tensor q q)); [|discriminate].
    destruct (validated armed chk _ (mass_p_tensor p p)); [|discriminate].
    destruct (armed && (m <? s_zero)%S); [discriminate|].
    intros [= <-]. split; reflexivity. }
  split; [apply P|]. split; [|split; [|split; [|split]]].
  - unfold ShiftToThenFromCenterOfMass_two_calls, mbind.
    rewrite !ShiftToCenterOfMassInPlace_eq.
    cbn [validated]. cbv zeta. rewrite ShiftFromCenterOfMassInPlace_eq.
    cbn [validated]. now rewrite V.
  - rewrite ShiftToThenAwayFromCenterOfMassInPlace_eq. reflexivity.
  - reflexivity.
  - intros H1. unfold ShiftToThenAwayFromCenterOfMass, const_method, on_copy.
    cbn [snd].
    destruct (ShiftToThenAwayFromCenterOfMassInPlace armed chk m p q I)
      as [R [[]|e]] eqn:H2; [|discriminate].
    intros [= <-]. now apply P.
  - unfold ShiftToThenAwayFromCenterOfMass, const_method, on_copy.
    now rewrite ShiftToThenAwayFromCenterOfMassInPlace_eq.
Qed.

(** C4 in exact arithmetic, with assertions armed: the receiver's moments
    (1, 1, 1), mass 1, p = (0, 1/2, 0) and q = (0, 1, 0). *)
Lemma fused_shift_agrees_with_two_calls_witness :
  let chk := CreateInvalidityReport (Q2Qc (1 # 1000)) in
  let I := stored (Q2Qc 1) (Q2Qc 1) (Q2Qc 1) (Q2Qc 0) (Q2Qc 0) (Q2Qc 0) in
  let p := mkVector3 (Q2Qc 0) (Q2Qc (1 # 2)) (Q2Qc 0) in
  let q := mkVector3 (Q2Qc 0) (Q2Qc 1) (Q2Qc 0) in
  snd (ShiftToThenFromCenterOfMass_two_calls true chk (Q2Qc 1) p q I) = Returned tt /\
  snd (ShiftToThenAwayFromCenterOfMassInPlace true chk (Q2Qc 1) p q I) = Returned tt /\
  fst (ShiftToThenFromCenterOfMass_two_calls true chk (Q2Qc 1) p q I)
  = fst (ShiftToThenAwayFromCenterOfMassInPlace true chk (Q2Qc 1) p q I) /\
  snd (ShiftToThenAwayFromCenterOfMass true chk (Q2Qc 1) p q I)
  = Returned (fst (ShiftToThenFromCenterOfMass_two_calls true chk (Q2Qc 1) p q I)).
Proof.
  intros chk I p q.
  assert (H1 : snd (ShiftToThenFromCenterOfMass_two_calls true chk (Q2Qc 1) p q I)
               = Returned tt) by (vm_compute; reflexivity).
  assert (H2 : snd (ShiftToThenAwayFromCenterOfMassInPlace true chk (Q2Qc 1) p q I)
               = Returned tt) by (vm_compute; reflexivity).
  assert (H3 : snd (ShiftToThenAwayFromCenterOfMass true chk (Q2Qc 1) p q I)
               = Returned (fst (ShiftToThenAwayFromCenterOfMassInPlace true chk
                                  (Q2Qc 1) p q I)))
    by (vm_compute; reflexivity).
  pose proof (@fused_shift_agrees_with_two_calls Qc exact exact_is_exact
                true chk (Q2Qc 1) p q I
                (fst (ShiftToThenFromCenterOfMass_two_calls true chk (Q2Qc 1) p q I))
                (fst (ShiftToThenAwayFromCenterOfMassInPlace true chk (Q2Qc 1) p q I)))
    as P.
  assert (E1 : ShiftToThenFromCenterOfMass_two_calls true chk (Q2Qc 1) p q I
               = (fst (ShiftToThenFromCenterOfMass_two_calls true chk (Q2Qc 1) p q I),
                  Returned tt))
    by (rewrite <- H1; apply surjective_pairing).
  assert (E2 : ShiftToThenAwayFromCenterOfMassInPlace true chk (Q2Qc 1) p q I
               = (fst (ShiftToThenAwayFromCenterOfMassInPlace true chk (Q2Qc 1) p q I),
                  Returned tt))
    by (rewrite <- H2; apply surjective_pairing).
  split; [exact H1|]. split; [exact H2|]. split.
  - exact (proj1 (proj1 P E1 E2)).
  - rewrite H3. apply f_equal. symmetry.
    exact (proj1 (proj1 (proj2 (proj2 (proj2 (proj2 P)))) E1 H3)).
Defined.




(** *** Further properties of the header *)

(** X1.  What the fused shift validates.  In a build where assertions are
    armed, [ShiftToThenAwayFromCenterOfMassInPlace] raises exactly when the
    unit point-mass tensor of the second offset or of the first offset fails
    the validity check, or the mass is negative, and the receiver is then
    untouched; otherwise it returns with the receiver
    [this + mass * (away - towards)].  Neither the difference of the two
    point-mass tensors nor the final sum passes through a validity check. *)
Theorem fused_shift_validation :
  forall (T : Type) (S : Scalar T) (chk : RotationalInertia T -> option string)
         (m : T) (p q : Vector3 T) (this : RotationalInertia T),
    ShiftToThenAwayFromCenterOfMassInPlace true chk m p q this
    = match chk (mass_p_tensor q q), chk (mass_p_tensor p p) with
      | Some report, _ => (this, Thrown (InvalidConstruction "RotationalInertia" report))
      | None, Some report => (this, Thrown (InvalidConstruction "RotationalInertia" report))
      | None, None =>
          if (m <? s_zero)%S then
            (this, Thrown (InvalidScale
               "Error: Rotational inertia is multiplied by a negative number."))
          else (fused_shift m p q this, Returned tt)
      end.
Proof.
  intros. rewrite ShiftToThenAwayFromCenterOfMassInPlace_eq. unfold validated.
  destruct (chk (mass_p_tensor q q)); [reflexivity|].
  destruct (chk (mass_p_tensor p p)); reflexivity.
Qed.

(** X2.  Multiplying the tensor by a vector, computed from the six stored
    values, is the product of the full symmetric matrix
    [CopyToFullMatrix3()] and the vector. *)
Theorem times_vector_is_symmetric_product :
  forall (T : Type) (S : Scalar T) (this : RotationalInertia T) (w_E : Vector3 T),
    operator_times_vector this w_E
    = matrix_times_vector (CopyToFullMatrix3 this) w_E.
Proof. reflexivity. Qed.

(** X3.  Additivity.  [A + B] always returns, unvalidated; in exact
    arithmetic [(A + B) - B] stores the values of [A], and returns them once
    they pass the validity check of the subtraction. *)
Theorem sum_then_difference :
  forall (T : Type) (S : Scalar T) (E : ExactScalar T) (armed : bool)
         (chk : RotationalInertia T -> option string)
         (A B : RotationalInertia T),
    let sum := {| I_SP_E_ := lower_update s_add (I_SP_E_ A) (I_SP_E_ B) |} in
    operator_plus A B = Returned sum /\
    operator_minus armed chk sum B
    = obind (validated armed chk "operator-=" A) (fun _ => Returned A).
Proof.
  intros. split; [reflexivity|].
  unfold operator_minus, on_copy. rewrite operator_minus_eq_eq. cbv zeta.
  assert (D : {| I_SP_E_ := lower_update s_sub (I_SP_E_ sum) (I_SP_E_ B) |} = A).
  { unfold sum. cbn [I_SP_E_]. rewrite lower_sub_add_cancel. now destruct A. }
  rewrite D. now destruct (validated armed chk "operator-=" A).
Qed.

(** X3 in exact arithmetic: the moments (1, 1, 1) plus and minus the
    moments (2, 2, 2). *)
Lemma sum_then_difference_witness :
  let A := stored (Q2Qc 1) (Q2Qc 1) (Q2Qc 1) (Q2Qc 0) (Q2Qc 0) (Q2Qc 0) in
  let B := stored (Q2Qc 2) (Q2Qc 2) (Q2Qc 2) (Q2Qc 0) (Q2Qc 0) (Q2Qc 0) in
  let sum := {| I_SP_E_ := lower_update s_add (I_SP_E_ A) (I_SP_E_ B) |} in
  operator_plus A B = Returned sum /\
  operator_minus false (fun _ => None) sum B = Returned A.
Proof.
  exact (@sum_then_difference Qc exact exact_is_exact false (fun _ => None)
           (stored (Q2Qc 1) (Q2Qc 1) (Q2Qc 1) (Q2Qc 0) (Q2Qc 0) (Q2Qc 0))
           (stored (Q2Qc 2) (Q2Qc 2) (Q2Qc 2) (Q2Qc 0) (Q2Qc 0) (Q2Qc 0))).
Defined.

(** X4.  Element access.  For indices in range, [operator()(i, j)] reads the
    lower triangle only: the assertion after [check_and_swap] never fails,
    the element is the (i, j) coefficient of the full symmetric matrix
    [CopyToFullMatrix3()], and the elements (i, j) and (j, i) are the same;
    whatever the coefficients above the diagonal hold is never returned. *)
Theorem element_access_is_symmetric :
  forall (T : Type) (S : Scalar T) (this : RotationalInertia T) (i j : nat)
         (u01 u02 u12 : T),
    (i < 3)%nat -> (j < 3)%nat ->
    (let '(i', j') := check_and_swap i j in
     is_lower_triangular_order i' j' = true) /\
    operator_call this i j = operator_call this j i /\
    operator_call this i j = coeff (CopyToFullMatrix3 this) i j /\
    operator_call {| I_SP_E_ := with_upper (I_SP_E_ this) u01 u02 u12 |} i j
    = operator_call this i j.
Proof.
  intros T S this i j u01 u02 u12 Hi Hj.
  destruct i as [|[|[|i]]]; [| | |lia];
    destruct j as [|[|[|j]]]; try lia; repeat split; reflexivity.
Qed.

(** X4 on doubles: the element (0, 2) of a tensor with Ixz = 7 is 7, not
    the NaN stored above the diagonal. *)
Lemma element_access_is_symmetric_witness :
  (let I := stored 1 2 3 5 7 9 in
   operator_call I 0 2 = operator_call I 2 0 /\
   operator_call I 0 2 = 7 /\ m02 (I_SP_E_ I) = nan)%float.
Proof.
  cbv zeta. split; [|split; reflexivity].
  exact (proj1 (proj2 (@element_access_is_symmetric float double
                         (stored 1 2 3 5 7 9)%float 0%nat 2%nat
                         0%float 0%float 0%float
                         (Nat.lt_0_succ 2) (Nat.lt_succ_diag_r 2)))).
Defined.

(** X5.  Six values in, six values out.  The factory with the validity check
    skipped returns, for any six values, a tensor whose moments, products and
    trace are the values given; with the check not skipped the factory
    validates in every build, armed or not, while the six-argument
    constructor and [TriaxiallySymmetric] validate in armed builds only and
    return any six values otherwise; whenever they return, all return the
    same tensor. *)
Theorem factory_and_constructor :
  forall (T : Type) (S : Scalar T) (chk : RotationalInertia T -> option string)
         (Ixx Iyy Izz Ixy Ixz Iyz : T),
    let I := stored Ixx Iyy Izz Ixy Ixz Iyz in
    MakeFromMomentsAndProductsOfInertia chk Ixx Iyy Izz Ixy Ixz Iyz true
    = Returned I /\
    get_moments I = mkVector3 Ixx Iyy Izz /\
    get_products I = mkVector3 Ixy Ixz Iyz /\
    Trace I = (Ixx + Iyy + Izz)%S /\
    MakeFromMomentsAndProductsOfInertia chk Ixx Iyy Izz Ixy Ixz Iyz false
    = match chk I with
      | Some report =>
          Thrown (InvalidConstruction "MakeFromMomentsAndProductsOfInertia" report)
      | None => Returned I
      end /\
    RotationalInertia_6 true chk Ixx Iyy Izz Ixy Ixz Iyz
    = match chk I with
      | Some report => Thrown (InvalidConstruction "RotationalInertia" report)
      | None => Returned I
      end /\
    RotationalInertia_6 false chk Ixx Iyy Izz Ixy Ixz Iyz = Returned I /\
    (forall armed : bool,
       TriaxiallySymmetric armed chk Ixx
       = RotationalInertia_6 armed chk Ixx Ixx Ixx s_zero s_zero s_zero /\
       RotationalInertia_3 armed chk Ixx Iyy Izz
       = RotationalInertia_6 armed chk Ixx Iyy Izz s_zero s_zero s_zero).
Proof.
  intros. rewrite !RotationalInertia_6_eq. fold I.
  unfold MakeFromMomentsAndProductsOfInertia, ThrowIfNotPhysicallyValid,
    ThrowIfNotPhysicallyValidImpl, on_copy, mbind, const_method, mret,
    set_moments_and_products_no_validity_check, modify, validated.
  cbn [negb RotationalInertia_default I_SP_E_ Constant m01 m02 m12].
  repeat split; try reflexivity; subst I; unfold stored;
    now destruct (chk _).
Qed.

(** *** Exact arithmetic: trace, point masses, scaling *)

#[export] Instance exact_is_field : ExactField Qc.
Proof.
  split.
  - exact exact_is_exact.
  - intros s Hs. cbn [s_mul s_div s_one exact]. unfold Qcdiv.
    rewrite Qcmult_1_l. now apply Qcmult_inv_r.
  - intros a b. cbn [s_eqb exact]. unfold Qc_eqb. rewrite Qeq_bool_iff. split.
    + apply Qc_is_canon.
    + now intros ->.
Qed.

Section ExactAlgebra.
Context {T : Type} `{ExactScalar T}.
Local Open Scope scalar_scope.

Add Ring scalar_ring_alg : exact_ring.

Lemma leb_opp_nonneg (a : T) : (a <=? s_zero) = true -> (s_zero <=? - a) = true.
Proof.
  intros L. apply leb_add_r with (c := - a) in L.
  replace (a + - a) with s_zero in L by ring.
  now replace (s_zero + - a) with (- a) in L by ring.
Qed.

Lemma square_nonneg (a : T) : (s_zero <=? a * a) = true.
Proof.
  destruct (leb_total s_zero a) as [L|L].
  - now apply leb_mul_nonneg.
  - replace (a * a) with (- a * - a) by ring.
    apply leb_mul_nonneg; now apply leb_opp_nonneg.
Qed.

Lemma positive_not_negative (s : T) :
  (s_zero <? s) = true -> (s <? s_zero) = false /\ s <> s_zero.
Proof.
  rewrite !ltb_leb, negb_true_iff, negb_false_iff. intros L. split.
  - destruct (leb_total s_zero s) as [L'|L']; congruence.
  - intros ->. now rewrite leb_refl in L.
Qed.

Lemma trace_mass_p_tensor (m : T) (d : Vector3 T) :
  Trace (mass_p_tensor (vscale m d) d) = (m + m) * vdot d d.
Proof.
  unfold Trace, trace, mass_p_tensor, stored, vscale, vdot;
    cbn [I_SP_E_ m00 m11 m22 v0 v1 v2]. ring.
Qed.

Lemma moments_mass_p_tensor (m : T) (d : Vector3 T) :
  (s_zero <=? m) = true ->
  let I := I_SP_E_ (mass_p_tensor (vscale m d) d) in
  ((s_zero <=? m00 I) = true /\ (s_zero <=? m11 I) = true /\
   (s_zero <=? m22 I) = true) /\
  ((m22 I <=? m00 I + m11 I) = true /\ (m11 I <=? m00 I + m22 I) = true /\
   (m00 I <=? m11 I + m22 I) = true).
Proof.
  intros Hm. unfold mass_p_tensor, stored, vscale;
    cbn [I_SP_E_ m00 m11 m22 v0 v1 v2]. cbv zeta.
  set (x := v0 d). set (y := v1 d). set (z := v2 d).
  assert (X : (s_zero <=? m * (x * x)) = true)
    by (apply leb_mul_nonneg; [assumption|apply square_nonneg]).
  assert (Y : (s_zero <=? m * (y * y)) = true)
    by (apply leb_mul_nonneg; [assumption|apply square_nonneg]).
  assert (Z : (s_zero <=? m * (z * z)) = true)
    by (apply leb_mul_nonneg; [assumption|apply square_nonneg]).
  replace (m * x * x) with (m * (x * x)) by ring.
  replace (m * y * y) with (m * (y * y)) by ring.
  replace (m * z * z) with (m * (z * z)) by ring.
  set (X2 := m * (x * x)) in *. set (Y2 := m * (y * y)) in *.
  set (Z2 := m * (z * z)) in *.
  repeat split; try (now apply leb_nonneg_add).
  - replace (Y2 + Z2 + (X2 + Z2)) with (X2 + Y2 + (Z2 + Z2)) by ring.
    apply leb_add_nonneg_r; [apply leb_refl|now apply leb_nonneg_add].
  - replace (Y2 + Z2 + (X2 + Y2)) with (X2 + Z2 + (Y2 + Y2)) by ring.
    apply leb_add_nonneg_r; [apply leb_refl|now apply leb_nonneg_add].
  - replace (X2 + Z2 + (X2 + Y2)) with (Y2 + Z2 + (X2 + X2)) by ring.
    apply leb_add_nonneg_r; [apply leb_refl|now apply leb_nonneg_add].
Qed.

Lemma times_vector_mass_p_tensor (m : T) (d w : Vector3 T) :
  operator_times_vector (mass_p_tensor (vscale m d) d) w
  = particle_angular_momentum m d w.
Proof.
  unfold operator_times_vector, particle_angular_momentum, mass_p_tensor,
    stored, vscale, vdot, coeff; cbn [I_SP_E_ m00 m10 m11 m20 m21 m22 v0 v1 v2].
  f_equal; ring.
Qed.

Lemma trace_lower_add (M N : Matrix3 T) :
  trace (lower_update s_add M N) = trace M + trace N.
Proof.
  unfold trace, lower_update; cbn [m00 m11 m22]. ring.
Qed.

Lemma trace_lower_sub (M N : Matrix3 T) :
  trace (lower_update s_sub M N) = trace M - trace N.
Proof.
  unfold trace, lower_update; cbn [m00 m11 m22]. ring.
Qed.

Lemma trace_lower_scale (M : Matrix3 T) (k : T) :
  trace (lower_scale M k) = trace M * k.
Proof.
  unfold trace, lower_scale; cbn [m00 m11 m22]. ring.
Qed.

Lemma lower_scale_scale (M : Matrix3 T) (a b : T) :
  a * b = s_one -> lower_scale (lower_scale M a) b = M.
Proof.
  intros E. destruct M.
  unfold lower_scale; cbn [m00 m01 m02 m10 m11 m12 m20 m21 m22].
  f_equal; match goal with |- ?v * a * b = ?v =>
    replace (v * a * b) with (v * (a * b)) by ring; rewrite E; ring end.
Qed.

End ExactAlgebra.

(** X6.  The trace in exact arithmetic.  The trace of a sum is the sum of
    the traces, scaling a tensor scales its trace, the trace of a point-mass
    tensor is 2 m |d|^2, and shifting away from (to) the center of mass adds
    (subtracts) 2 m |d|^2, whenever the operation returns. *)
Theorem trace_of_operations :
  forall (T : Type) (S : Scalar T) (E : ExactScalar T) (armed : bool)
         (chk : RotationalInertia T -> option string)
         (A B : RotationalInertia T) (m s : T) (d : Vector3 T),
    (exists sum, operator_plus A B = Returned sum /\
                 Trace sum = (Trace A + Trace B)%S) /\
    (forall J, operator_times armed A s = Returned J ->
               Trace J = (Trace A * s)%S) /\
    (forall P, RotationalInertia_point_mass armed chk m d = Returned P ->
               Trace P = ((m + m) * vdot d d)%S) /\
    (forall J, snd (ShiftFromCenterOfMass armed chk m d A) = Returned J ->
               Trace J = (Trace A + (m + m) * vdot d d)%S) /\
    (forall J, snd (ShiftToCenterOfMass armed chk m d A) = Returned J ->
               Trace J = (Trace A - (m + m) * vdot d d)%S).
Proof.
  intros. split; [|split; [|split; [|split]]]; try intros J.
  - eexists. split; [reflexivity|]. apply trace_lower_add.
  - unfold operator_times, on_copy. rewrite operator_times_eq_eq.
    destruct (armed && (s <? s_zero)%S); [discriminate|].
    intros [= <-]. apply trace_lower_scale.
  - rewrite RotationalInertia_point_mass_eq.
    destruct (validated armed chk _ _); [|discriminate].
    intros [= <-]. apply trace_mass_p_tensor.
  - unfold ShiftFromCenterOfMass, const_method, on_copy. cbn [snd].
    rewrite ShiftFromCenterOfMassInPlace_eq.
    destruct (validated armed chk _ _); [|discriminate].
    intros [= <-]. pose proof (trace_mass_p_tensor m d) as P.
    unfold Trace in *. cbn [I_SP_E_]. rewrite trace_lower_add.
    f_equal. exact P.
  - unfold ShiftToCenterOfMass, const_method, on_copy. cbn [snd].
    rewrite ShiftToCenterOfMassInPlace_eq.
    destruct (validated armed chk _ (mass_p_tensor (vscale m d) d));
      [|discriminate].
    cbv zeta. destruct (validated armed chk "operator-=" _); [|discriminate].
    intros [= <-]. pose proof (trace_mass_p_tensor m d) as P.
    unfold Trace in *. cbn [I_SP_E_]. rewrite trace_lower_sub.
    f_equal. exact P.
Qed.

(** X6 in exact arithmetic: shifting the moments (1, 1, 1) away from the
    center of mass by mass 2 at (1, 1, 0) raises the trace from 3 to 11. *)
Lemma trace_of_operations_witness :
  let A := stored (Q2Qc 1) (Q2Qc 1) (Q2Qc 1) (Q2Qc 0) (Q2Qc 0) (Q2Qc 0) in
  let d := mkVector3 (Q2Qc 1) (Q2Qc 1) (Q2Qc 0) in
  let J := {| I_SP_E_ := lower_update s_add (I_SP_E_ A)
                (I_SP_E_ (mass_p_tensor (vscale (Q2Qc 2) d) d)) |} in
  snd (ShiftFromCenterOfMass false (fun _ => None) (Q2Qc 2) d A) = Returned J /\
  Trace J = (Trace A + (Q2Qc 2 + Q2Qc 2) * vdot d d)%S /\
  Trace A = Q2Qc 3 /\ Trace J = Q2Qc 11.
Proof.
  intros A d J.
  assert (H1 : snd (ShiftFromCenterOfMass false (fun _ => None) (Q2Qc 2) d A)
               = Returned J) by reflexivity.
  split; [exact H1|]. split.
  - exact (proj1 (proj2 (proj2 (proj2
             (@trace_of_operations Qc exact exact_is_exact false (fun _ => None)
                A A (Q2Qc 2) (Q2Qc 1) d)))) J H1).
  - split; apply Qc_is_canon; reflexivity.
Defined.

(** X7.  A point mass is physically plausible.  In exact arithmetic, for a
    non-negative mass the tensor the point-mass constructor returns has
    non-negative moments that satisfy the three triangle inequalities with no
    tolerance; and shifting a tensor away from the center of mass with a
    non-negative mass decreases none of its moments. *)
Theorem point_mass_is_plausible :
  forall (T : Type) (S : Scalar T) (E : ExactScalar T) (armed : bool)
         (chk : RotationalInertia T -> option string) (m : T) (d : Vector3 T)
         (A P J : RotationalInertia T),
    (s_zero <=? m)%S = true ->
    (RotationalInertia_point_mass armed chk m d = Returned P ->
     let '(Ixx, Iyy, Izz, _, _, _) := six P in
     ((s_zero <=? Ixx) = true /\ (s_zero <=? Iyy) = true /\
      (s_zero <=? Izz) = true) /\
     ((Izz <=? Ixx + Iyy) = true /\ (Iyy <=? Ixx + Izz) = true /\
      (Ixx <=? Iyy + Izz) = true))%S /\
    (snd (ShiftFromCenterOfMass armed chk m d A) = Returned J ->
     let '(Axx, Ayy, Azz, _, _, _) := six A in
     let '(Jxx, Jyy, Jzz, _, _, _) := six J in
     (Axx <=? Jxx) = true /\ (Ayy <=? Jyy) = true /\ (Azz <=? Jzz) = true)%S.
Proof.
  intros T S E armed chk m d A P J Hm.
  pose proof (@moments_mass_p_tensor T S E m d Hm) as [N Tri].
  split.
  - rewrite RotationalInertia_point_mass_eq.
    destruct (validated armed chk _ _); [|discriminate].
    intros [= <-]. cbn [six]. split; assumption.
  - unfold ShiftFromCenterOfMass, const_method, on_copy. cbn [snd].
    rewrite ShiftFromCenterOfMassInPlace_eq.
    destruct (validated armed chk _ _); [|discriminate].
    intros [= <-]. cbn [six I_SP_E_ lower_update m00 m11 m22].
    destruct N as (N0 & N1 & N2).
    repeat split; (apply leb_add_nonneg_r; [apply leb_refl|assumption]).
Qed.

(** X7 in exact arithmetic: mass 2 at (1, 1, 0), moments (2, 2, 4). *)
Lemma point_mass_is_plausible_witness :
  let d := mkVector3 (Q2Qc 1) (Q2Qc 1) (Q2Qc 0) in
  let P := mass_p_tensor (vscale (Q2Qc 2) d) d in
  (s_zero <=? Q2Qc 2)%S = true /\
  RotationalInertia_point_mass false (fun _ => None) (Q2Qc 2) d = Returned P /\
  (let '(Ixx, Iyy, Izz, _, _, _) := six P in
   ((s_zero <=? Ixx) = true /\ (s_zero <=? Iyy) = true /\
    (s_zero <=? Izz) = true) /\
   ((Izz <=? Ixx + Iyy) = true /\ (Iyy <=? Ixx + Izz) = true /\
    (Ixx <=? Iyy + Izz) = true))%S.
Proof.
  intros d P. split; [reflexivity|]. split; [reflexivity|].
  exact (proj1 (@point_mass_is_plausible Qc exact exact_is_exact false
                  (fun _ => None) (Q2Qc 2) d P P P eq_refl) eq_refl).
Defined.

(** X8.  Angular momentum of a particle.  In exact arithmetic, the tensor
    the point-mass constructor returns for mass m at d maps an angular
    velocity w to m (|d|^2 w - (d . w) d), the angular momentum
    m d x (w x d) of the particle. *)
Theorem point_mass_times_vector :
  forall (T : Type) (S : Scalar T) (E : ExactScalar T) (armed : bool)
         (chk : RotationalInertia T -> option string) (m : T) (d w : Vector3 T)
         (P : RotationalInertia T),
    RotationalInertia_point_mass armed chk m d = Returned P ->
    operator_times_vector P w = particle_angular_momentum m d w.
Proof.
  intros T S E armed chk m d w P.
  rewrite RotationalInertia_point_mass_eq.
  destruct (validated armed chk _ _); [|discriminate].
  intros [= <-]. apply times_vector_mass_p_tensor.
Qed.

(** X8 in exact arithmetic: mass 2 at (1, 0, 0) turning about z. *)
Lemma point_mass_times_vector_witness :
  let d := mkVector3 (Q2Qc 1) (Q2Qc 0) (Q2Qc 0) in
  let w := mkVector3 (Q2Qc 0) (Q2Qc 0) (Q2Qc 3) in
  let P := mass_p_tensor (vscale (Q2Qc 2) d) d in
  RotationalInertia_point_mass false (fun _ => None) (Q2Qc 2) d = Returned P /\
  operator_times_vector P w = particle_angular_momentum (Q2Qc 2) d w.
Proof.
  intros d w P. split; [reflexivity|].
  exact (@point_mass_times_vector Qc exact exact_is_exact false
           (fun _ => None) (Q2Qc 2) d w P eq_refl).
Defined.

(** X9.  Scaling round trip.  In exact arithmetic with division, for a
    positive scalar s neither [operator*] nor [operator/] raises, in any
    build, and (I * s) / s and (I / s) * s both return I; the unchecked
    [MultiplyByScalarSkipValidityCheck] returns what [operator*] returns. *)
Theorem scale_round_trip :
  forall (T : Type) (S : Scalar T) (F : ExactField T) (armed : bool)
         (I : RotationalInertia T) (s : T),
    (s_zero <? s)%S = true ->
    operator_times armed I s = Returned (MultiplyByScalarSkipValidityCheck I s) /\
    obind (operator_times armed I s) (fun J => operator_div armed J s)
    = Returned I /\
    obind (operator_div armed I s) (fun J => operator_times armed J s)
    = Returned I.
Proof.
  intros T S F armed I s Hs.
  pose proof (@field_is_exact T S F) as E.
  destruct (@positive_not_negative T S E s Hs) as [Hneg Hnz].
  assert (Hz : (s =? s_zero)%S = false).
  { destruct (s =? s_zero)%S eqn:Q; [|reflexivity].
    apply eqb_eq in Q. contradiction. }
  pose proof (@div_inverse T S F s Hnz) as D.
  assert (D' : (s_one / s * s)%S = s_one).
  { destruct (@exact_ring T S E). now rewrite Rmul_comm. }
  unfold operator_times, operator_div, on_copy, MultiplyByScalarSkipValidityCheck.
  rewrite !operator_times_eq_eq, !operator_div_eq_eq, Hneg, Hz, !andb_false_r.
  cbn [obind]. rewrite !operator_times_eq_eq, !operator_div_eq_eq, Hneg, Hz,
    !andb_false_r. cbn [I_SP_E_].
  rewrite (@lower_scale_scale T S E _ _ _ D), (@lower_scale_scale T S E _ _ _ D').
  repeat split; now destruct I.
Qed.

(** X9 in exact arithmetic: the moments (1, 2, 3) times 2 and divided
    by 2. *)
Lemma scale_round_trip_witness :
  let I := stored (Q2Qc 1) (Q2Qc 2) (Q2Qc 3) (Q2Qc 0) (Q2Qc 0) (Q2Qc 0) in
  (s_zero <? Q2Qc 2)%S = true /\
  obind (operator_times true I (Q2Qc 2)) (fun J => operator_div true J (Q2Qc 2))
  = Returned I.
Proof.
  intros I. split; [reflexivity|].
  exact (proj1 (proj2 (@scale_round_trip Qc exact exact_is_field true I
                         (Q2Qc 2) eq_refl))).
Defined.

(** *** Doubles: NaN, zero and the order of a sum *)

(** Addition commutes.  The law holds in a ring and in IEEE-754 arithmetic
    alike. *)
Class AddCommutative (T : Type) `{Scalar T} : Prop := {
  add_comm : forall a b : T, (a + b = b + a)%S
}.
Arguments AddCommutative T {_}.

Lemma is_nan_eq (f : float) : is_nan f = true -> f = nan.
Proof.
  intros N. rewrite <- (SF2Prim_Prim2SF f). unfold Prim2SF. now rewrite N.
Qed.

Lemma float_nan_add_l (x : float) : (nan + x)%float = nan.
Proof. apply Prim2SF_inj. rewrite add_spec. reflexivity. Qed.

Lemma float_nan_add_r (x : float) : (x + nan)%float = nan.
Proof.
  apply Prim2SF_inj. rewrite add_spec.
  change (Prim2SF nan) with S754_nan. now destruct (Prim2SF x).
Qed.

Lemma float_nan_sub_l (x : float) : (nan - x)%float = nan.
Proof. apply Prim2SF_inj. rewrite sub_spec. reflexivity. Qed.

Lemma float_nan_sub_r (x : float) : (x - nan)%float = nan.
Proof.
  apply Prim2SF_inj. rewrite sub_spec.
  change (Prim2SF nan) with S754_nan. now destruct (Prim2SF x).
Qed.

Lemma float_nan_mul_l (x : float) : (nan * x)%float = nan.
Proof. apply Prim2SF_inj. rewrite mul_spec. reflexivity. Qed.

Lemma is_nan_add (a b : float) :
  is_nan a = true \/ is_nan b = true -> is_nan (a + b) = true.
Proof.
  intros [N|N]; apply is_nan_eq in N; subst.
  - now rewrite float_nan_add_l.
  - now rewrite float_nan_add_r.
Qed.

Lemma is_nan_sub (a b : float) :
  is_nan a = true \/ is_nan b = true -> is_nan (a - b) = true.
Proof.
  intros [N|N]; apply is_nan_eq in N; subst.
  - now rewrite float_nan_sub_l.
  - now rewrite float_nan_sub_r.
Qed.

Lemma is_nan_mul (a s : float) : is_nan a = true -> is_nan (a * s) = true.
Proof. intros N; apply is_nan_eq in N; subst. now rewrite float_nan_mul_l. Qed.

Lemma SFadd_comm prec emax x y : SFadd prec emax x y = SFadd prec emax y x.
Proof.
  destruct x as [sx|sx| |sx mx ex], y as [sy|sy| |sy my ey]; try reflexivity.
  - now destruct sx, sy.
  - now destruct sx, sy.
  - unfold SFadd. now rewrite Z.min_comm, Z.add_comm.
Qed.

#[export] Instance double_add_commutative : AddCommutative float.
Proof.
  split. intros a b. apply Prim2SF_inj. cbn [s_add double].
  rewrite !add_spec. apply SFadd_comm.
Qed.

Lemma eqb_zero_is_zero (x : float) :
  (x =? 0)%float = true -> x = 0%float \/ x = (-0)%float.
Proof.
  rewrite eqb_spec. change (Prim2SF 0) with (S754_zero false).
  intros Q. rewrite <- (SF2Prim_Prim2SF x).
  destruct (Prim2SF x) as [[|]|[|]| |[|] m e]; try discriminate Q.
  - now right.
  - now left.
Qed.

(** X10.  NaN is sticky on doubles.  A default-constructed tensor is NaN;
    if the receiver or the operand of [operator+=] or of the unchecked
    subtraction is NaN then so is the receiver afterwards; and a NaN
    receiver stays NaN through [operator*=] and [operator/=], whether they
    return or raise. *)
Theorem nan_is_sticky :
  forall (this other : RotationalInertia float) (armed : bool) (s : float),
    IsNaN (RotationalInertia_default (T := float)) = true /\
    (IsNaN this = true \/ IsNaN other = true ->
     IsNaN (fst (operator_plus_eq other this)) = true /\
     IsNaN (fst (MinusEqualsUnchecked other this)) = true) /\
    (IsNaN this = true ->
     IsNaN (fst (operator_times_eq armed s this)) = true /\
     IsNaN (fst (operator_div_eq armed s this)) = true).
Proof.
  intros [A] [B] armed s. split; [reflexivity|]. split.
  - unfold IsNaN, operator_plus_eq, MinusEqualsUnchecked, modify, get_matrix,
      lower_update, coeff; cbn [fst I_SP_E_ m00 m10 m11 m20 m21 m22 s_isnan
      s_add s_sub double].
    rewrite !orb_true_iff. intros H. split.
    + assert (P : forall a b, is_nan a = true \/ is_nan b = true ->
                         is_nan (a + b)%float = true) by apply is_nan_add.
      intuition auto 10.
    + assert (P : forall a b, is_nan a = true \/ is_nan b = true ->
                         is_nan (a - b)%float = true) by apply is_nan_sub.
      intuition auto 10.
  - intros N. rewrite operator_times_eq_eq, operator_div_eq_eq.
    assert (Sc : forall k, IsNaN {| I_SP_E_ := lower_scale A k |} = true).
    { intros k. revert N.
      unfold IsNaN, lower_scale, coeff; cbn [I_SP_E_ m00 m10 m11 m20 m21 m22
        s_isnan s_mul double].
      rewrite !orb_true_iff.
      assert (P : forall a, is_nan a = true -> is_nan (a * k)%float = true)
        by (intros; now apply is_nan_mul).
      intuition auto 10. }
    cbn [I_SP_E_]. split.
    + destruct (armed && _); cbn [fst]; [assumption|apply Sc].
    + destruct (armed && _); cbn [fst]; [assumption|].
      destruct (armed && _); cbn [fst]; [assumption|apply Sc].
Qed.

(** X10 on doubles: adding the moments (1, 2, 3) to a default-constructed
    tensor leaves it NaN. *)
Lemma nan_is_sticky_witness :
  (IsNaN (RotationalInertia_default (T := float)) = true /\
   IsNaN (fst (operator_plus_eq (stored 1 2 3 0 0 0) RotationalInertia_default))
   = true)%float.
Proof.
  split; [reflexivity|].
  exact (proj1 (proj1 (proj2 (nan_is_sticky RotationalInertia_default
                                 (stored 1 2 3 0 0 0)%float false 1%float))
                  (or_introl eq_refl))).
Defined.

Lemma zero_is_finite (x : float) : (x =? 0)%float = true -> is_finite x = true.
Proof. intros Q. now destruct (eqb_zero_is_zero Q) as [-> | ->]. Qed.

Lemma finite_is_not_nan (x : float) : is_finite x = true -> is_nan x = false.
Proof.
  unfold is_finite. rewrite negb_true_iff, orb_false_iff. now intros [N _].
Qed.

(** X11.  The diagnostic predicates agree on doubles: a tensor that
    [IsZero] is finite, and a finite tensor is not NaN. *)
Theorem zero_finite_not_nan :
  forall this : RotationalInertia float,
    (IsZero this = true -> IsFinite this = true) /\
    (IsFinite this = true -> IsNaN this = false).
Proof.
  intros [M]. unfold IsZero, IsFinite, IsNaN, coeff;
    cbn [I_SP_E_ s_eqb s_zero s_isfinite s_isnan double]. split.
  - rewrite !andb_true_iff. intros (((((Z0 & Z1) & Z2) & Z3) & Z4) & Z5).
    now rewrite !zero_is_finite.
  - rewrite !andb_true_iff. intros (((((F0 & F1) & F2) & F3) & F4) & F5).
    now rewrite !finite_is_not_nan.
Qed.

(** X11 on doubles: a default-constructed tensor set to zero. *)
Lemma zero_finite_not_nan_witness :
  let I := fst (SetZero (RotationalInertia_default (T := float))) in
  IsZero I = true /\ IsFinite I = true /\ IsNaN I = false.
Proof.
  intros I.
  pose proof (proj1 (zero_finite_not_nan I) eq_refl) as F.
  split; [reflexivity|]. split; [exact F|].
  exact (proj2 (zero_finite_not_nan I) F).
Defined.

#[export] Instance exact_add_commutative {T : Type} `{ExactScalar T}
  : AddCommutative T.
Proof. split. intros a b. destruct exact_ring. apply Radd_comm. Qed.

(** X12.  The order of a sum.  For a scalar type whose addition commutes
    (doubles, bit for bit, and exact numbers), A + B and B + A both return
    and store the same six values. *)
Theorem sum_commutes :
  forall (T : Type) (S : Scalar T) (C : AddCommutative T)
         (A B : RotationalInertia T),
    exists AB BA : RotationalInertia T,
      operator_plus A B = Returned AB /\ operator_plus B A = Returned BA /\
      six AB = six BA.
Proof.
  intros T S C [M] [N].
  exists {| I_SP_E_ := lower_update s_add M N |},
         {| I_SP_E_ := lower_update s_add N M |}.
  split; [reflexivity|]. split; [reflexivity|].
  unfold six, lower_update; cbn [I_SP_E_ m00 m10 m11 m20 m21 m22].
  now rewrite (add_comm (m00 M)), (add_comm (m11 M)), (add_comm (m22 M)),
    (add_comm (m10 M)), (add_comm (m20 M)), (add_comm (m21 M)).
Qed.

(** X12 on doubles. *)
Lemma sum_commutes_witness :
  exists AB BA : RotationalInertia float,
    (operator_plus (stored 1 2 3 0 0 0) (stored 0.5 0.25 0.5 0 0 0)
     = Returned AB /\
     operator_plus (stored 0.5 0.25 0.5 0 0 0) (stored 1 2 3 0 0 0)
     = Returned BA /\
     six AB = six BA)%float.
Proof.
  exact (@sum_commutes float double double_add_commutative
           (stored 1 2 3 0 0 0)%float (stored 0.5 0.25 0.5 0 0 0)%float).
Defined.

Lemma MakeFromMomentsAndProductsOfInertia_eq {T : Type} `{Scalar T}
    (chk : RotationalInertia T -> option string) (a b c d e f : T) (skip : bool) :
  MakeFromMomentsAndProductsOfInertia chk a b c d e f skip
  = if skip then Returned (stored a b c d e f)
    else obind (validated true chk "MakeFromMomentsAndProductsOfInertia"
                  (stored a b c d e f))
               (fun _ => Returned (stored a b c d e f)).
Proof.
  unfold MakeFromMomentsAndProductsOfInertia, ThrowIfNotPhysicallyValid,
    ThrowIfNotPhysicallyValidImpl, on_copy, mbind, const_method, mret,
    set_moments_and_products_no_validity_check, modify, validated, stored.
  cbn [RotationalInertia_default I_SP_E_ Constant m01 m02 m12].
  destruct skip; [reflexivity|]. cbn [negb]. now destruct (chk _).
Qed.

(** X13.  The coefficients above the diagonal are never written.  Every
    constructor and the factory return a tensor with NaN above the diagonal,
    and every in-place operation, whether it returns or raises, leaves the
    three coefficients above the diagonal as they were: a tensor built and
    changed through the class keeps NaN there. *)
Theorem upper_triangle_is_kept :
  forall (T : Type) (S : Scalar T) (armed : bool)
         (chk : RotationalInertia T -> option string)
         (this other : RotationalInertia T) (s m : T) (p q : Vector3 T)
         (a b c d e f : T) (skip : bool),
    let nans := (s_quiet_NaN, s_quiet_NaN, s_quiet_NaN) in
    let built (o : outcome (RotationalInertia T)) :=
      match o with Returned J => upper J = nans | Thrown _ => True end in
    upper (RotationalInertia_default (T := T)) = nans /\
    built (RotationalInertia_6 armed chk a b c d e f) /\
    built (RotationalInertia_point_mass armed chk m p) /\
    built (MakeFromMomentsAndProductsOfInertia chk a b c d e f skip) /\
    upper (fst (SetToNaN this)) = nans /\
    upper (fst (SetZero this)) = upper this /\
    upper (fst (operator_plus_eq other this)) = upper this /\
    upper (fst (operator_minus_eq armed chk other this)) = upper this /\
    upper (fst (operator_times_eq armed s this)) = upper this /\
    upper (fst (operator_div_eq armed s this)) = upper this /\
    upper (fst (ShiftFromCenterOfMassInPlace armed chk m p this)) = upper this /\
    upper (fst (ShiftToCenterOfMassInPlace armed chk m p this)) = upper this /\
    upper (fst (ShiftToThenAwayFromCenterOfMassInPlace armed chk m p q this))
    = upper this.
Proof.
  intros. subst built nans. cbv beta.
  rewrite RotationalInertia_6_eq, RotationalInertia_point_mass_eq,
    operator_minus_eq_eq, operator_times_eq_eq, operator_div_eq_eq,
    ShiftFromCenterOfMassInPlace_eq, ShiftToCenterOfMassInPlace_eq,
    ShiftToThenAwayFromCenterOfMassInPlace_eq.
  rewrite MakeFromMomentsAndProductsOfInertia_eq.
  repeat split; try reflexivity.
  - now destruct (validated armed chk _ _).
  - now destruct (validated armed chk _ _).
  - destruct skip; [reflexivity|]. now destruct (validated true chk _ _).
  - destruct (armed && _); reflexivity.
  - destruct (armed && _); [reflexivity|]. destruct (armed && _); reflexivity.
  - now destruct (validated armed chk _ _).
  - now destruct (validated armed chk _ _).
  - destruct (validated armed chk _ (mass_p_tensor q q)); [|reflexivity].
    destruct (validated armed chk _ (mass_p_tensor p p)); [|reflexivity].
    destruct (armed && _); reflexivity.
Qed.

(** *** Exact arithmetic: the comparison *)

(** A total order: [<=] is antisymmetric. *)
Class ExactOrder (T : Type) `{Scalar T} : Prop := {
  order_is_exact : ExactScalar T;
  leb_antisym : forall a b : T,
    (a <=? b)%S = true -> (b <=? a)%S = true -> a = b
}.
Arguments ExactOrder T {_}.

#[export] Instance exact_is_order : ExactOrder Qc.
Proof.
  split; [exact exact_is_exact|].
  intros a b. cbn [s_leb exact]. rewrite !Qc_leb_iff. apply Qcle_antisym.
Qed.

Section ExactComparison.
Context {T : Type} `{Scalar T} {O : ExactOrder T}.
Local Open Scope scalar_scope.

#[local] Existing Instance order_is_exact.

Add Ring order_ring : (@exact_ring T _ order_is_exact).

Lemma abs_zero : s_abs (s_zero : T) = s_zero.
Proof. now rewrite abs_spec, ltb_leb, leb_refl. Qed.

Lemma abs_sub_diag (x : T) : s_abs (x - x) = s_zero.
Proof. replace (x - x) with (s_zero : T) by ring. apply abs_zero. Qed.

Lemma mul_zero_r (a : T) : a * s_zero = s_zero.
Proof. ring. Qed.

Lemma abs_sub_comm (a b : T) : s_abs (a - b) = s_abs (b - a).
Proof.
  rewrite !abs_spec, !ltb_leb.
  destruct (s_zero <=? a - b) eqn:L, (s_zero <=? b - a) eqn:L'; cbn [negb];
    try ring.
  - apply leb_add_r with (c := a - b) in L'.
    replace (s_zero + (a - b)) with (a - b) in L' by ring.
    replace (b - a + (a - b)) with s_zero in L' by ring.
    pose proof (leb_antisym _ _ L L') as E.
    replace (b - a) with (- (a - b)) by ring. rewrite <- E. ring.
  - destruct (leb_total s_zero (a - b)) as [P|P]; [congruence|].
    apply leb_add_r with (c := b - a) in P.
    replace (s_zero + (b - a)) with (b - a) in P by ring.
    replace (a - b + (b - a)) with s_zero in P by ring.
    congruence.
Qed.

Lemma std_min_comm (a b : T) : std_min a b = std_min b a.
Proof.
  unfold std_min. rewrite !ltb_leb.
  destruct (a <=? b) eqn:L, (b <=? a) eqn:L'; cbn [negb]; try reflexivity.
  - now apply leb_antisym.
  - destruct (leb_total a b); congruence.
Qed.

Lemma abs_leb_zero (a b : T) : (s_abs (a - b) <=? s_zero) = true -> a = b.
Proof.
  intros L. pose proof (leb_antisym _ _ L (abs_nonneg (a - b))) as E.
  rewrite abs_spec in E. destruct (a - b <? s_zero).
  - replace a with (b - - (a - b)) by ring. rewrite E. ring.
  - replace a with (b + (a - b)) by ring. rewrite E. ring.
Qed.

Lemma max_moment_nonneg (I : RotationalInertia T) :
  (s_zero <=? CalcMaximumPossibleMomentOfInertia I) = true.
Proof.
  unfold CalcMaximumPossibleMomentOfInertia.
  apply leb_mul_nonneg; [apply half_nonneg | apply abs_nonneg].
Qed.

End ExactComparison.

(** X19.  The comparison is symmetric and reflexive.  In exact arithmetic,
    [A.IsNearlyEqualTo(B, p)] and [B.IsNearlyEqualTo(A, p)] agree, a tensor
    is nearly equal to itself for every non-negative precision, and the
    tolerance being relative to the smaller trace, a tensor whose trace is
    zero is nearly equal only to a tensor with the same six values. *)
Theorem nearly_equal_is_reflexive_and_symmetric :
  forall (T : Type) (S : Scalar T) (O : ExactOrder T)
         (A B : RotationalInertia T) (precision : T),
    IsNearlyEqualTo A B precision = IsNearlyEqualTo B A precision /\
    ((s_zero <=? precision)%S = true -> IsNearlyEqualTo A A precision = true) /\
    (Trace A = s_zero -> IsNearlyEqualTo A B precision = true -> six A = six B).
Proof.
  intros T S O A B precision.
  pose proof (@order_is_exact T S O) as E.
  unfold IsNearlyEqualTo, IsApproxMomentsAndProducts, lpNorm_Infinity,
    get_moments, get_products, diagonal, vsub, coeff; cbn [v0 v1 v2].
  rewrite !std_max_leb.
  split; [|split].
  - rewrite (std_min_comm (CalcMaximumPossibleMomentOfInertia A)).
    now rewrite !(abs_sub_comm (_ (I_SP_E_ A)) (_ (I_SP_E_ B))).
  - intros Hp.
    rewrite !abs_sub_diag.
    assert (M : std_min (CalcMaximumPossibleMomentOfInertia A)
                        (CalcMaximumPossibleMomentOfInertia A)
                = CalcMaximumPossibleMomentOfInertia A).
    { unfold std_min. now destruct (_ <? _)%S. }
    rewrite M, (leb_mul_nonneg _ _ Hp (max_moment_nonneg A)). reflexivity.
  - intros Ht.
    assert (M : (precision *
                 std_min (CalcMaximumPossibleMomentOfInertia A)
                         (CalcMaximumPossibleMomentOfInertia B))%S = s_zero).
    { assert (MA : CalcMaximumPossibleMomentOfInertia A = s_zero).
      { unfold CalcMaximumPossibleMomentOfInertia. rewrite Ht, abs_zero.
        apply mul_zero_r. }
      rewrite MA. unfold std_min. rewrite ltb_leb, max_moment_nonneg.
      cbn [negb]. apply mul_zero_r. }
    rewrite M, !andb_true_iff. intros [[[H0 H1] H2] [[H3 H4] H5]].
    unfold six. cbn [I_SP_E_].
    now rewrite (abs_leb_zero _ _ H0), (abs_leb_zero _ _ H1),
      (abs_leb_zero _ _ H2), (abs_leb_zero _ _ H3), (abs_leb_zero _ _ H4),
      (abs_leb_zero _ _ H5).
Qed.

(** X19 in exact arithmetic: moments (1, 2, 3) against (1, 2, 7/2). *)
Lemma nearly_equal_is_reflexive_and_symmetric_witness :
  let A := stored (Q2Qc 1) (Q2Qc 2) (Q2Qc 3) (Q2Qc 0) (Q2Qc 0) (Q2Qc 0) in
  let B := stored (Q2Qc 1) (Q2Qc 2) (Q2Qc (7 # 2)) (Q2Qc 0) (Q2Qc 0) (Q2Qc 0) in
  IsNearlyEqualTo A B (Q2Qc (1 # 2)) = IsNearlyEqualTo B A (Q2Qc (1 # 2)) /\
  IsNearlyEqualTo A A (Q2Qc (1 # 2)) = true.
Proof.
  intros A B.
  pose proof (@nearly_equal_is_reflexive_and_symmetric Qc exact exact_is_order
                A B (Q2Qc (1 # 2))) as P.
  split; [exact (proj1 P) | exact (proj1 (proj2 P) eq_refl)].
Defined.

(** ** The automotive demo *)

Import AutomotiveDemo.

Lemma append_assoc (a b c : string) : ((a ++ b) ++ c = a ++ (b ++ c))%string.
Proof. induction a; cbn; [reflexivity | now rewrite IHa]. Qed.

Lemma append_nil_r (a : string) : (a ++ "" = a)%string.
Proof. induction a; cbn; [reflexivity | now rewrite IHa]. Qed.

Lemma append_inj_l (a b c : string) : (a ++ b = a ++ c)%string -> b = c.
Proof. induction a; cbn; [trivial | intros [= E]; auto]. Qed.

Lemma comma_free_uint (d : Decimal.uint) :
  comma_free (NilEmpty.string_of_uint d) = true.
Proof. induction d; cbn; auto. Qed.

Lemma comma_free_to_string (i : Z) : comma_free (to_string i) = true.
Proof.
  unfold to_string, NilZero.string_of_int, NilZero.string_of_uint.
  destruct (Z.to_int i) as [d|d]; destruct d; cbn; auto using comma_free_uint.
Qed.

Lemma to_int_not_nil (i : Z) :
  Z.to_int i <> Decimal.Pos Decimal.Nil /\ Z.to_int i <> Decimal.Neg Decimal.Nil.
Proof.
  destruct i as [|p|p]; cbn; split; try discriminate;
    intros [= E]; now apply (DecimalPos.Unsigned.to_uint_nonnil p).
Qed.

Lemma to_string_inj (i j : Z) : to_string i = to_string j -> i = j.
Proof.
  unfold to_string. intros E.
  apply DecimalZ.to_int_inj.
  destruct (to_int_not_nil i) as [A B], (to_int_not_nil j) as [C D].
  pose proof (NilZero.isi _ A B) as P. pose proof (NilZero.isi _ C D) as Q.
  rewrite E in P. rewrite P in Q. now injection Q.
Qed.

Lemma to_string_not_empty (i : Z) : empty (to_string i) = false.
Proof.
  unfold to_string, NilZero.string_of_int, NilZero.string_of_uint.
  destruct (Z.to_int i) as [d|d] eqn:E; [|reflexivity].
  destruct d; reflexivity.
Qed.

Lemma getline_all_comma_free (t rest name : string) (extracted : bool) :
  comma_free t = true ->
  getline_all (t ++ rest) name extracted
  = getline_all rest (name ++ t) (extracted || negb (empty t)).
Proof.
  revert name extracted. induction t as [|c t IH]; intros name extracted Hc.
  - cbn. now rewrite append_nil_r, orb_false_r.
  - cbn in Hc. apply andb_true_iff in Hc as [Hc Ht].
    cbn [append getline_all]. apply negb_true_iff in Hc. rewrite Hc.
    rewrite IH by exact Ht. rewrite append_assoc. cbn.
    now rewrite orb_true_r.
Qed.

Lemma default_car_names_more (todo : nat) (i : Z) (names : string) :
  (0 < i)%Z ->
  default_car_names todo i names = (names ++ more_car_names todo i)%string.
Proof.
  revert i names. induction todo as [|todo IH]; intros i names Hi; cbn.
  - now rewrite append_nil_r.
  - destruct (Z.eqb_spec i 0); [lia|]. cbn [negb].
    rewrite IH by lia. now rewrite !append_assoc.
Qed.

Lemma getline_all_more (todo : nat) (i : Z) (name : string) :
  getline_all (more_car_names todo i) name true
  = name :: map to_string (car_numbers todo i).
Proof.
  revert i name. induction todo as [|todo IH]; intros i name; cbn; [reflexivity|].
  f_equal. rewrite getline_all_comma_free by apply comma_free_to_string.
  rewrite to_string_not_empty. cbn. apply IH.
Qed.

Lemma getline_all_default (todo : nat) :
  getline_all (default_car_names todo 0 "") "" false
  = map to_string (car_numbers todo 0).
Proof.
  destruct todo as [|todo]; [reflexivity|].
  cbn [default_car_names car_numbers map]. cbn [Z.eqb negb].
  rewrite default_car_names_more by lia.
  change ("" ++ to_string 0)%string with (to_string 0).
  rewrite getline_all_comma_free by apply comma_free_to_string.
  rewrite to_string_not_empty. cbn. apply getline_all_more.
Qed.

Lemma add_simple_cars_names (names : list string) (y : float) :
  map call_name (add_simple_cars names y) = names.
Proof. revert y. induction names; intros y; cbn; [reflexivity | now rewrite IHnames]. Qed.

Lemma add_simple_cars_channels (names : list string) (y : float) :
  map call_channel (add_simple_cars names y)
  = map (fun n => Some (MakeChannelName n)) names.
Proof. revert y. induction names; intros y; cbn; [reflexivity | now rewrite IHnames]. Qed.



Lemma MakeChannelName_inj (a b : string) :
  MakeChannelName a = MakeChannelName b -> a = b.
Proof.
  unfold MakeChannelName.
  destruct a, b; cbn [empty]; try reflexivity; intros E.
  - discriminate E.
  - discriminate E.
  - now apply (append_inj_l "DRIVING_COMMAND_") in E.
Qed.

(** X14.  The choice of the road network.  [DetermineRoadNetworkType]
    throws exactly when [--with_onramp] is set and [--num_dragway_lanes] is
    not zero, a negative number of lanes included although it would select
    no dragway; it returns the dragway exactly for a positive number of
    lanes without the onramp, the onramp exactly when that flag stands alone,
    and the flat plane otherwise, a negative number of lanes included. *)
Theorem road_network_selection :
  forall F : Flags,
    let lanes := FLAGS_num_dragway_lanes F in
    let with_onramp := FLAGS_with_onramp F in
    DetermineRoadNetworkType F <> undefined_behaviour /\
    ((exists what, DetermineRoadNetworkType F = runtime_error what)
       <-> with_onramp = true /\ lanes <> 0%Z) /\
    (DetermineRoadNetworkType F = Ok dragway
       <-> with_onramp = false /\ (0 < lanes)%Z) /\
    (DetermineRoadNetworkType F = Ok onramp
       <-> with_onramp = true /\ lanes = 0%Z) /\
    (DetermineRoadNetworkType F = Ok flat
       <-> with_onramp = false /\ (lanes <= 0)%Z).
Proof.
  intros F lanes with_onramp. subst lanes with_onramp.
  unfold DetermineRoadNetworkType.
  destruct (FLAGS_with_onramp F);
    destruct (Z.eqb_spec (FLAGS_num_dragway_lanes F) 0) as [E|E];
    destruct (Z.ltb_spec 0 (FLAGS_num_dragway_lanes F)) as [L|L];
    cbn;
    repeat match goal with
           | |- _ /\ _ => split
           | |- _ <-> _ => split
           | |- _ -> _ => intro
           | H : _ /\ _ |- _ => destruct H
           | H : exists _, _ |- _ => destruct H
           end;
    try discriminate; try lia; try congruence; eauto.
Qed.

(** X15.  The LCM channel of a car.  Two cars subscribe to the same channel
    exactly when they have the same name; only the empty name gives the
    bare default [DRIVING_COMMAND], and every channel starts with it. *)
Theorem channel_name_identifies_car :
  forall a b : string,
    (MakeChannelName a = MakeChannelName b <-> a = b) /\
    (MakeChannelName a = "DRIVING_COMMAND"%string <-> a = ""%string) /\
    String.prefix "DRIVING_COMMAND" (MakeChannelName a) = true.
Proof.
  intros a b. split; [|split].
  - split; [apply MakeChannelName_inj | now intros ->].
  - split; [|now intros ->].
    change "DRIVING_COMMAND"%string with (MakeChannelName "").
    apply MakeChannelName_inj.
  - destruct a; reflexivity.
Qed.

Lemma car_numbers_seq (todo i : nat) :
  car_numbers todo (Z.of_nat i) = map Z.of_nat (seq i todo).
Proof.
  revert i. induction todo as [|todo IH]; intros i; cbn; [reflexivity|].
  f_equal. rewrite <- IH. f_equal. lia.
Qed.

Lemma add_simple_cars_seq (f : nat -> string) (todo i : nat) (y : float) :
  add_simple_cars (map f (seq i todo)) y
  = map (fun k => AddPriusSimpleCar (f k) (MakeChannelName (f k))
                    (Nat.iter (k - i) (fun y => y + 3)%float y))
        (seq i todo).
Proof.
  revert i y. induction todo as [|todo IH]; intros i y; cbn [seq map add_simple_cars];
    [reflexivity|].
  rewrite Nat.sub_diag. cbn [Nat.iter]. f_equal.
  rewrite IH. apply map_ext_in. intros k Hk. apply in_seq in Hk.
  f_equal. replace (k - i)%nat with (S (k - S i)) by lia.
  cbn [Nat.iter]. exact (Nat.iter_swap (k - S i) _ (fun y => y + 3)%float y).
Qed.

Lemma NoDup_map_inj {A B : Type} (f : A -> B) (l : list A) :
  (forall a b, f a = f b -> a = b) -> NoDup l -> NoDup (map f l).
Proof.
  intros Hf. induction 1 as [|a l Hn Hd IH]; cbn; constructor; [|exact IH].
  intros Hin. apply in_map_iff in Hin as [b [E Hb]]. apply Hf in E. now subst.
Qed.

(** *** The vehicles of the road network are no simple cars *)

Lemma for_each_car_no_channel (body : Z -> status call) (todo : nat) (i : Z) :
  (forall j c, body j = Ok c -> call_channel c = None) ->
  Forall (fun c => call_channel c = None) (fst (for_each_car body todo i)).
Proof.
  intros Hb. revert i. induction todo as [|todo IH]; intros i; cbn;
    [constructor|].
  destruct (body i) as [c| | |] eqn:E; try constructor.
  specialize (IH (i + 1)%Z).
  destruct (for_each_car body todo (i + 1)) as [calls st]. cbn [fst] in *.
  constructor; [apply (Hb i c E) | exact IH].
Qed.

Lemma for_each_car_none (body : Z -> status call) (n : Z) :
  (n <= 0)%Z -> for_each_car body (Z.to_nat n) 0 = (nil, Ok tt).
Proof. intros Hn. now replace (Z.to_nat n) with 0%nat by lia. Qed.

Lemma AddMaliputRailcar_no_channel (F : Flags) (lane_length : Z -> float)
    (num_cars : Z) (idm_controlled : bool) (initial_s_offset : Z) :
  Forall (fun c => call_channel c = None)
    (fst (AddMaliputRailcar F lane_length num_cars idm_controlled
            initial_s_offset)).
Proof.
  unfold AddMaliputRailcar. generalize 0%Z as i.
  induction (Z.to_nat num_cars) as [|todo IH]; intros i; cbn; [constructor|].
  destruct (AddMaliputRailcar_body F lane_length idm_controlled
              initial_s_offset i) as [c| | |] eqn:E; try constructor.
  specialize (IH (i + 1)%Z).
  destruct (AddMaliputRailcar_loop F lane_length idm_controlled
              initial_s_offset todo (i + 1)) as [calls st].
  cbn [fst] in *. constructor; [|exact IH].
  unfold AddMaliputRailcar_body in E.
  destruct (_ =? _)%Z; [discriminate|].
  destruct (_ <=? _)%float; [discriminate|].
  destruct idm_controlled; injection E as <-; reflexivity.
Qed.

Lemma and_then_no_channel (first next : list call * status unit) :
  Forall (fun c => call_channel c = None) (fst first) ->
  Forall (fun c => call_channel c = None) (fst next) ->
  Forall (fun c => call_channel c = None) (fst (and_then first next)).
Proof.
  intros Hf Hn. unfold and_then. destruct first as [calls [[]| | |]];
    cbn [fst] in *; try assumption.
  apply Forall_app. now split.
Qed.

Lemma channels_app (a b : list call) : channels (a ++ b) = channels a ++ channels b.
Proof. apply flat_map_app. Qed.

Lemma channels_no_channel (calls : list call) :
  Forall (fun c => call_channel c = None) calls -> channels calls = nil.
Proof.
  induction 1 as [|c calls Hc Hf IH]; [reflexivity|].
  unfold channels in *. cbn [flat_map]. now rewrite Hc, IH.
Qed.

(** [AddVehicles], when it does not throw at once: the simple cars come
    first; what follows, for the road network, adds no simple car, and is
    nothing on a flat road network without trajectory cars. *)
Lemma AddVehicles_simple_cars_first (F : Flags)
    (road_network_type : RoadNetworkType) (road_geometry : option RoadGeometry)
    (FindLane_length : string -> float) (simple : list call) :
  negb (FLAGS_num_simple_car F =? 0)%Z && negb (empty (FLAGS_simple_car_names F))
  = false ->
  (if negb (FLAGS_num_simple_car F =? 0)%Z
      || negb (empty (FLAGS_simple_car_names F)) then
     add_simple_cars
       (getline_all
          (if empty (FLAGS_simple_car_names F)
           then default_car_names (Z.to_nat (FLAGS_num_simple_car F)) 0
                  (FLAGS_simple_car_names F)
           else FLAGS_simple_car_names F) EmptyString false) 0%float
   else nil) = simple ->
  exists road : list call * status unit,
    AddVehicles F road_network_type road_geometry FindLane_length
    = (simple ++ fst road, snd road) /\
    Forall (fun c => call_channel c = None) (fst road) /\
    (road_network_type = flat -> (FLAGS_num_trajectory_car F <= 0)%Z ->
     road = (nil, Ok tt)).
Proof.
  intros Hg Hs. unfold AddVehicles. rewrite Hg.
  lazymatch goal with
  | |- context [and_then (if _ then _ else (nil, Ok tt)) ?r] => exists r
  end.
  split; [|split].
  - subst simple. unfold and_then at 1.
    now destruct (negb (FLAGS_num_simple_car F =? 0)%Z
                  || negb (empty (FLAGS_simple_car_names F))).
  - destruct road_network_type.
    + apply for_each_car_no_channel. now intros j c [= <-].
    + destruct road_geometry as [[lane_length|]|]; try constructor.
      apply and_then_no_channel.
      * apply for_each_car_no_channel. intros j c E.
        destruct (FLAGS_num_dragway_lanes F =? 0)%Z; [discriminate E|].
        now injection E as <-.
      * apply and_then_no_channel; [apply AddMaliputRailcar_no_channel|].
        destruct ((FLAGS_num_dragway_lanes F =? 0)%Z || _);
          [apply Forall_nil|].
        destruct (int_of_double _); [|apply Forall_nil].
        apply AddMaliputRailcar_no_channel.
    + destruct road_geometry as [g|]; [|constructor].
      apply for_each_car_no_channel. now intros j c [= <-].
  - intros -> Hn. now apply for_each_car_none.
Qed.

(** X16.  The cars of [--num_simple_car].  With [--simple_car_names] left
    empty, the names written into the comma-separated string and read back
    with [getline] are the decimal numbers of the cars: whatever the road
    network, the first calls of [AddVehicles] add the car [k] for every [k]
    below the flag (none for a flag that is zero or negative) under the name
    [to_string k], on the channel [DRIVING_COMMAND_k], at [y] the sum of [k]
    spacings of 3, in this order; the calls that follow, for the vehicles of
    the road network, add no simple car, and no two simple cars share a
    channel.  On the flat road network without trajectory cars these are
    all the calls, and [AddVehicles] returns.  With [--num_simple_car] not
    zero and [--simple_car_names] not empty, [AddVehicles] throws before any
    call. *)
Theorem default_simple_cars :
  forall (F : Flags) (road_network_type : RoadNetworkType)
         (road_geometry : option RoadGeometry)
         (FindLane_length : string -> float),
    let n := Z.to_nat (FLAGS_num_simple_car F) in
    let car (k : nat) :=
      AddPriusSimpleCar (to_string (Z.of_nat k))
        ("DRIVING_COMMAND_" ++ to_string (Z.of_nat k))
        (Nat.iter k (fun y => y + 3)%float 0%float) in
    let added :=
      fst (AddVehicles F road_network_type road_geometry FindLane_length) in
    (empty (FLAGS_simple_car_names F) = true ->
     (exists rest : list call,
        added = map car (seq 0 n) ++ rest /\
        Forall (fun c => call_channel c = None) rest) /\
     NoDup (channels added) /\
     ((FLAGS_num_trajectory_car F <= 0)%Z ->
      AddVehicles F flat road_geometry FindLane_length
      = (map car (seq 0 n), Ok tt))) /\
    (FLAGS_num_simple_car F <> 0%Z ->
     empty (FLAGS_simple_car_names F) = false ->
     AddVehicles F road_network_type road_geometry FindLane_length
     = (nil, runtime_error
               ("Both --num_simple_car and --simple_car_names specified. " ++
                "Only one can be specified at a time."))).
Proof.
  intros F road_network_type road_geometry FindLane_length n car added.
  split.
  2: { intros Hn He. unfold AddVehicles. rewrite He.
       destruct (Z.eqb_spec (FLAGS_num_simple_car F) 0); [contradiction|].
       reflexivity. }
  intros He.
  assert (Hg : negb (FLAGS_num_simple_car F =? 0)%Z
               && negb (empty (FLAGS_simple_car_names F)) = false)
    by (rewrite He; apply andb_false_r).
  assert (Hs : (if negb (FLAGS_num_simple_car F =? 0)%Z
                   || negb (empty (FLAGS_simple_car_names F)) then
                  add_simple_cars
                    (getline_all
                       (if empty (FLAGS_simple_car_names F)
                        then default_car_names
                               (Z.to_nat (FLAGS_num_simple_car F)) 0
                               (FLAGS_simple_car_names F)
                        else FLAGS_simple_car_names F) EmptyString false)
                    0%float
                else nil) = map car (seq 0 n)).
  { rewrite He. cbn [negb]. rewrite orb_false_r.
    destruct (FLAGS_simple_car_names F) eqn:En; [|discriminate He].
    destruct (Z.eqb_spec (FLAGS_num_simple_car F) 0) as [E0|E0]; cbn [negb].
    - subst n. now rewrite E0.
    - fold n. rewrite getline_all_default.
      change 0%Z with (Z.of_nat 0). rewrite car_numbers_seq, map_map.
      rewrite add_simple_cars_seq. apply map_ext. intros k.
      subst car. cbv beta. rewrite Nat.sub_0_r. f_equal.
      unfold MakeChannelName. now rewrite to_string_not_empty. }
  assert (Hc : forall l : list nat,
             channels (map car l)
             = map (fun k => ("DRIVING_COMMAND_" ++ to_string (Z.of_nat k))%string)
                   l).
  { unfold channels, car. induction l as [|k l IH]; [reflexivity|].
    cbn [map flat_map call_channel app]. now rewrite IH. }
  split; [|split].
  - destruct (AddVehicles_simple_cars_first F road_network_type road_geometry
                FindLane_length Hg Hs) as [road [E [Hr _]]].
    exists (fst road). subst added. now rewrite E.
  - destruct (AddVehicles_simple_cars_first F road_network_type road_geometry
                FindLane_length Hg Hs) as [road [E [Hr _]]].
    subst added. rewrite E. cbn [fst].
    rewrite channels_app, (channels_no_channel Hr), app_nil_r, Hc.
    apply NoDup_map_inj; [|apply seq_NoDup].
    intros j k [= E']. apply to_string_inj in E'. lia.
  - intros Hn.
    destruct (AddVehicles_simple_cars_first F flat road_geometry
                FindLane_length Hg Hs) as [road [E [_ Hf]]].
    rewrite E, (Hf eq_refl Hn). cbn [fst snd]. now rewrite app_nil_r.
Qed.

(** X16 for three cars on the flat road network. *)
Lemma default_simple_cars_witness :
  let F := {| FLAGS_num_simple_car := 3; FLAGS_simple_car_names := "";
              FLAGS_num_trajectory_car := 0;
              FLAGS_num_idm_controlled_maliput_railcar := 0;
              FLAGS_num_maliput_railcar := 0;
              FLAGS_num_dragway_lanes := 0; FLAGS_dragway_base_speed := 4;
              FLAGS_dragway_lane_speed_delta := 2;
              FLAGS_dragway_vehicle_delay := 3;
              FLAGS_with_onramp := false; FLAGS_onramp_base_speed := 25;
              FLAGS_onramp_swap_start := false |} in
  AddVehicles F flat None (fun _ => 0%float)
  = (AddPriusSimpleCar "0" "DRIVING_COMMAND_0" 0
     :: AddPriusSimpleCar "1" "DRIVING_COMMAND_1" 3
     :: AddPriusSimpleCar "2" "DRIVING_COMMAND_2" 6 :: nil, Ok tt).
Proof.
  intros F.
  refine (proj2 (proj2 (proj1 (@default_simple_cars F flat None
                                 (fun _ => 0%float)) eq_refl)) _).
  cbn. lia.
Defined.

Lemma getline_all_join (names : list string) :
  Forall (fun name => comma_free name = true) names ->
  empty (last names EmptyString) = false ->
  getline_all (join names) EmptyString false = names.
Proof.
  induction 1 as [|name names Hc Hf IH]; [discriminate|].
  destruct names as [|name' names].
  - cbn [last join]. intros Hl.
    rewrite <- (append_nil_r name) at 1.
    rewrite getline_all_comma_free by exact Hc. rewrite Hl. reflexivity.
  - intros Hl. change (last (name :: name' :: names) EmptyString)
      with (last (name' :: names) EmptyString) in Hl.
    change (join (name :: name' :: names))
      with (name ++ "," ++ join (name' :: names))%string.
    rewrite getline_all_comma_free by exact Hc.
    cbn [append getline_all Ascii.eqb Bool.eqb]. cbn.
    f_equal. now apply IH.
Qed.

Lemma empty_join (names : list string) :
  empty (last names EmptyString) = false -> empty (join names) = false.
Proof.
  induction names as [|name names IH]; [discriminate|].
  destruct names as [|name' names]; [trivial|].
  intros Hl. change (join (name :: name' :: names))
      with (name ++ "," ++ join (name' :: names))%string.
  destruct name; reflexivity.
Qed.

(** X17.  The cars of [--simple_car_names].  For a list of names that hold
    no comma, the last of them not empty, written with commas between them,
    and whatever the road network, the first calls of [AddVehicles] add one
    simple car per name, in order, under that name; a name in the list that
    is empty subscribes to the bare [DRIVING_COMMAND], every other to
    [DRIVING_COMMAND_<name>]; the calls that follow, for the vehicles of the
    road network, add no simple car.  On the flat road network without
    trajectory cars these are all the calls, and [AddVehicles] returns. *)
Theorem named_simple_cars :
  forall (F : Flags) (names : list string)
         (road_network_type : RoadNetworkType)
         (road_geometry : option RoadGeometry)
         (FindLane_length : string -> float),
    FLAGS_num_simple_car F = 0%Z ->
    FLAGS_simple_car_names F = join names ->
    Forall (fun name => comma_free name = true) names ->
    empty (last names EmptyString) = false ->
    let channel (name : string) :=
      Some (if empty name then "DRIVING_COMMAND"
            else "DRIVING_COMMAND_" ++ name)%string in
    let added :=
      fst (AddVehicles F road_network_type road_geometry FindLane_length) in
    (exists simple rest : list call,
       added = simple ++ rest /\
       map call_name simple = names /\
       map call_channel simple = map channel names /\
       Forall (fun c => call_channel c = None) rest) /\
    ((FLAGS_num_trajectory_car F <= 0)%Z ->
     snd (AddVehicles F flat road_geometry FindLane_length) = Ok tt /\
     map call_name (fst (AddVehicles F flat road_geometry FindLane_length))
     = names /\
     map call_channel (fst (AddVehicles F flat road_geometry FindLane_length))
     = map channel names).
Proof.
  intros F names road_network_type road_geometry FindLane_length Hn Hj Hc Hl
    channel added.
  assert (Hg : negb (FLAGS_num_simple_car F =? 0)%Z
               && negb (empty (FLAGS_simple_car_names F)) = false)
    by now rewrite Hn.
  assert (Hs : (if negb (FLAGS_num_simple_car F =? 0)%Z
                   || negb (empty (FLAGS_simple_car_names F)) then
                  add_simple_cars
                    (getline_all
                       (if empty (FLAGS_simple_car_names F)
                        then default_car_names
                               (Z.to_nat (FLAGS_num_simple_car F)) 0
                               (FLAGS_simple_car_names F)
                        else FLAGS_simple_car_names F) EmptyString false)
                    0%float
                else nil) = add_simple_cars names 0%float).
  { rewrite Hn, Hj, (empty_join _ Hl). cbn [Z.eqb negb orb].
    now rewrite getline_all_join. }
  assert (Hch : map call_channel (add_simple_cars names 0%float)
                = map channel names).
  { rewrite add_simple_cars_channels. apply map_ext. intros name.
    subst channel. unfold MakeChannelName. now destruct name. }
  split.
  - destruct (AddVehicles_simple_cars_first F road_network_type road_geometry
                FindLane_length Hg Hs) as [road [E [Hr _]]].
    exists (add_simple_cars names 0%float), (fst road).
    subst added. rewrite E. cbn [fst].
    split; [reflexivity|]. split; [apply add_simple_cars_names|].
    split; [exact Hch | exact Hr].
  - intros Ht.
    destruct (AddVehicles_simple_cars_first F flat road_geometry
                FindLane_length Hg Hs) as [road [E [_ Hf]]].
    rewrite E, (Hf eq_refl Ht). cbn [fst snd]. rewrite app_nil_r.
    split; [reflexivity|]. split; [apply add_simple_cars_names | exact Hch].
Qed.

(** X17 on the names of the flag's help text, on the flat road network. *)
Lemma named_simple_cars_witness :
  let F := {| FLAGS_num_simple_car := 0; FLAGS_simple_car_names := "Russ,Jeremy,Liang";
              FLAGS_num_trajectory_car := 0;
              FLAGS_num_idm_controlled_maliput_railcar := 0;
              FLAGS_num_maliput_railcar := 0;
              FLAGS_num_dragway_lanes := 0; FLAGS_dragway_base_speed := 4;
              FLAGS_dragway_lane_speed_delta := 2;
              FLAGS_dragway_vehicle_delay := 3;
              FLAGS_with_onramp := false; FLAGS_onramp_base_speed := 25;
              FLAGS_onramp_swap_start := false |} in
  snd (AddVehicles F flat None (fun _ => 0%float)) = Ok tt /\
  map call_name (fst (AddVehicles F flat None (fun _ => 0%float)))
  = ("Russ" :: "Jeremy" :: "Liang" :: nil)%string /\
  map call_channel (fst (AddVehicles F flat None (fun _ => 0%float)))
  = (Some "DRIVING_COMMAND_Russ" :: Some "DRIVING_COMMAND_Jeremy"
     :: Some "DRIVING_COMMAND_Liang" :: nil)%string.
Proof.
  intros F.
  refine (proj2 (@named_simple_cars F ("Russ" :: "Jeremy" :: "Liang" :: nil)%string
                   flat None (fun _ => 0%float) eq_refl eq_refl _ eq_refl) _).
  - repeat constructor.
  - cbn. lia.
Defined.

Section Railcars.

Variables (F : Flags) (lane_length : Z -> float) (idm_controlled : bool)
  (initial_s_offset : Z).

Local Abbreviation lanes := (FLAGS_num_dragway_lanes F).
Local Abbreviation ran_out_message :=
  "Ran out of lane length to add a MaliputRailcar."%string.

Let s_offset (i : Z) : float :=
  (double_of_int initial_s_offset
   + kRailcarRowSpacing * double_of_int (Z.quot i lanes))%float.


Let speed (i : Z) : float :=
  (FLAGS_dragway_base_speed F
   + double_of_int (Z.rem i lanes) * FLAGS_dragway_lane_speed_delta F)%float.


Hypothesis some_lanes : lanes <> 0%Z.



End Railcars.



